(** * The stats task of the backrest orchestrator

    A shallow embedding of [internal/orchestrator/taskstats.go]: the
    decision [shouldRun] that scans the operation log backwards, the
    polling entry point [Next] with its single scheduled instant, and
    [Run] with its failure hook.

    Conventions.  Go's [int64] is a [Z] with the two's-complement wrap
    written out ([wrap64]).  A Go [error] value is an [option error]
    ([None] is [nil]).  The orchestrator reached through [t.orch] is shared
    mutable state: it is the state of the monad [M], while the task
    itself, mutated through its pointer receiver, is passed and returned
    explicitly. *)

From Stdlib Require Import ZArith List String Bool Lia.
Import ListNotations.
Open Scope Z_scope.

(** ** Machine integers *)

(** [int64] arithmetic wraps around silently in Go. *)
Definition wrap64 (z : Z) : Z := (z + 2 ^ 63) mod 2 ^ 64 - 2 ^ 63.

Definition in_int64 (z : Z) : Prop := - 2 ^ 63 <= z < 2 ^ 63.

(** ** Errors *)

(** The error values the task handles: the log's distinguished stop
    signal, [errors.New], and [fmt.Errorf] with a [%w] verb, which keeps
    the wrapped error reachable. *)
Inductive error : Type :=
| ErrStopIteration
| errors_New (msg : string)
| fmt_Errorf_w (pre : string) (inner : error).

(** [err.Error()]. *)
Fixpoint Error (e : error) : string :=
  match e with
  | ErrStopIteration => "stop iteration"
  | errors_New msg => msg
  | fmt_Errorf_w pre inner => pre ++ Error inner
  end.

(** [err == oplog.ErrStopIteration]. *)
Definition isStop (e : error) : bool :=
  match e with ErrStopIteration => true | _ => false end.

(** [e] is [orig] or wraps it through a chain of [%w]. *)
Inductive wraps (orig : error) : error -> Prop :=
| wraps_here : wraps orig orig
| wraps_step pre e : wraps orig e -> wraps orig (fmt_Errorf_w pre e).

(** ** The operation records (package v1) *)

Inductive OperationStatus : Type :=
| STATUS_UNKNOWN
| STATUS_PENDING
| STATUS_INPROGRESS
| STATUS_SUCCESS
| STATUS_ERROR.

Record BackupProgressSummary : Type := { DataAdded : Z }.

(** The [Entry] oneof of a progress entry: unset, an intermediate status
    record, or the terminal summary. *)
Inductive isBackupProgressEntry_Entry : Type :=
| Entry_nil
| BackupProgressEntry_Status (percentDone : Z)
| BackupProgressEntry_Summary (Summary : BackupProgressSummary).

Record BackupProgressEntry : Type := { Entry : isBackupProgressEntry_Entry }.

Record OperationBackup : Type := { LastStatus : option BackupProgressEntry }.

Record RepoStats : Type := { TotalSize : Z; SnapshotCount : Z }.

Record OperationStats : Type := { Stats : option RepoStats }.

(** The [Op] oneof of an operation.  [Operation_OperationStats None] is the
    wrapper with a nil payload, as [Next] builds it. *)
Inductive isOperation_Op : Type :=
| Op_nil
| Operation_OperationBackup (b : OperationBackup)
| Operation_OperationStats (s : option OperationStats)
| Operation_Other (kind : string).

Record Operation : Type := {
  Id : Z;
  PlanId : string;
  RepoId : string;
  SnapshotId : string;
  UnixTimeStartMs : Z;
  Status : OperationStatus;
  DisplayMessage : string;
  Op : isOperation_Op
}.

Record RetentionPolicy : Type := { KeepLastN : Z }.

Record Plan : Type := {
  Plan_Id : string;
  Repo : string;
  Retention : option RetentionPolicy
}.

Record RepoConfig : Type := { Repo_Id : string; Uri : string }.

(** ** Hooks *)

Inductive Hook_Condition : Type :=
| Hook_CONDITION_UNKNOWN
| Hook_CONDITION_ANY_ERROR
| Hook_CONDITION_SNAPSHOT_START
| Hook_CONDITION_SNAPSHOT_END.

Record HookVars : Type := { Task : string; Error_ : string }.

(** One call of [hookExecutor.ExecuteHooks], with its five arguments. *)
Record HookCall : Type := {
  hook_repo : option RepoConfig;
  hook_plan : Plan;
  hook_snapshotId : string;
  hook_events : list Hook_Condition;
  hook_vars : HookVars
}.

(** ** The orchestrator: shared state and observable effects *)

(** A resolved repository: its configuration and what its blocking
    [Stats] call answers (a cancelled context shows as an error here). *)
Record RepoOrchestrator : Type := {
  repoConfig : RepoConfig;
  statsResult : RepoStats + error
}.

(** The operation log: the stored operations of all repositories in
    insertion order (oldest first), and the failures its storage engine
    answers with, if any.  A failing engine fails an iteration as a whole:
    [shouldRun] drops what its visitor gathered when the iteration returns
    an error, so where the failure strikes cannot be observed. *)
Record OpLogT : Type := {
  ops : list Operation;
  iterFault : option error;
  addFault : option error
}.

Inductive event : Type :=
| EvForEachByRepo (repo : string)
| EvOpLogAdd (op : Operation)
| EvOpLogUpdate (op : Operation)
| EvGetRepo (repo : string)
| EvRepoStats (repo : string)
| EvExecuteHooks (call : HookCall)
| EvErrorf (task : string) (what : string) (err : error).

Record Orchestrator : Type := {
  OpLog : OpLogT;
  repos : list (string * RepoOrchestrator);
  trace : list event
}.

(** Instants ([time.Time]) as nanoseconds since the Unix epoch. *)
Definition Time : Type := Z.

Record StatsTask : Type := {
  op : option Operation;        (* TaskWithOperation.op *)
  plan : Plan;
  linkSnapshot : string;
  at_ : option Time
}.

(** ** A state monad over the orchestrator *)

Definition M (A : Type) : Type := Orchestrator -> A * Orchestrator.

Definition ret {A} (a : A) : M A := fun w => (a, w).

Definition bind {A B} (m : M A) (f : A -> M B) : M B :=
  fun w => let (a, w') := m w in f a w'.

Notation "x <- m ;; k" := (bind m (fun x => k))
  (at level 61, m at next level, right associativity).
Notation "' p <- m ;; k" := (bind m (fun x => match x with p => k end))
  (at level 61, p pattern, m at next level, right associativity).

Definition emit (e : event) : M unit :=
  fun w => (tt, {| OpLog := OpLog w; repos := repos w; trace := trace w ++ [e] |}).

Definition getOpLog : M OpLogT := fun w => (OpLog w, w).

Definition putOpLog (l : OpLogT) : M unit :=
  fun w => (tt, {| OpLog := l; repos := repos w; trace := trace w |}).

(** ** The operation log as the task consumes it *)

(** Modelled from the spec: [indexutil.CollectLastN], [indexutil.Reversed]
    and [OpLog.ForEachByRepo] belong to package [internal/oplog], outside
    the file embedded here.  The log "exposes reverse
    (newest-first) bounded iteration with early-stop signaling": a
    collector selects from the repository's operations, in index order, and
    the visitor then receives the selected operations one at a time; the
    stop signal ends the iteration without being an error, any other error
    of the visitor or of the storage engine is returned.  A collector is
    handed the bound only, so [CollectLastN n] keeps the last [n]
    operations whatever their status.  Section 4.1 words the bound over
    the settled entries instead: [CollectLastNSettled] follows that wording,
    and [shouldRunWith] leaves the collector open. *)
Definition CollectLastN {A : Type} (n : nat) (ids : list A) : list A :=
  skipn (List.length ids - n)%nat ids.

(** Modelled from the spec: [indexutil.Reversed], the collector that hands
    over what the given collector selects, newest first. *)
Definition Reversed {A : Type} (collector : list A -> list A) (ids : list A) : list A :=
  rev (collector ids).

(** Modelled from the spec: the loop of [OpLog.ForEachByRepo] over the
    selected operations, where the visitor "may return a distinguished stop
    signal to terminate iteration early without treating it as an error".
    [S] is the state the visitor closure captures. *)
Fixpoint forOps {S : Type} (l : list Operation)
    (do : Operation -> S -> S * option error) (s : S) : S * option error :=
  match l with
  | [] => (s, None)
  | o :: rest =>
      let (s', r) := do o s in
      match r with
      | None => forOps rest do s'
      | Some e => if isStop e then (s', None) else (s', Some e)
      end
  end.

(** Modelled from the spec: the log is a "per-repository sequence of
    operation records"; the operations recorded for one repository. *)
Definition byRepo (repo : string) (l : list Operation) : list Operation :=
  filter (fun o => String.eqb (RepoId o) repo) l.

(** Modelled from the spec: [OpLog.ForEachByRepo],
    [Iterate(repoId, direction, visitor) -> error]. *)
Definition ForEachByRepo {S : Type} (repo : string)
    (collector : list Operation -> list Operation)
    (do : Operation -> S -> S * option error) (s : S) : M (S * option error) :=
  _ <- emit (EvForEachByRepo repo) ;;
  l <- getOpLog ;;
  match iterFault l with
  | Some e => ret (s, Some e)
  | None => ret (forOps (collector (byRepo repo (ops l))) do s)
  end.

(** ** StatsTask.shouldRun *)

Definition statBytesThreshold : Z := 10 * 1024 * 1024 * 1024.
Definition statOperationsThreshold : Z := 100.

(** The two local variables the visitor closure captures and mutates. *)
Record scanVars : Type := { bytesSinceLastStat : Z; howFarBack : Z }.

(** The closure passed to [ForEachByRepo].  [howFarBack] is a Go [int]; it
    is incremented at most once per visited operation and at most
    [statOperationsThreshold] operations are visited, so its wrap-around is
    out of reach and left out (see [scan_howFarBack_bound]). *)
Definition visit (o : Operation) (v : scanVars) : scanVars * option error :=
  match Status o with
  | STATUS_PENDING | STATUS_INPROGRESS => (v, None)
  | _ =>
      let n := howFarBack v + 1 in
      match Op o with
      | Operation_OperationStats _ =>
          ({| bytesSinceLastStat :=
                if bytesSinceLastStat v =? -1 then 0 else bytesSinceLastStat v;
              howFarBack := n |}, Some ErrStopIteration)
      | Operation_OperationBackup backup =>
          match LastStatus backup with
          | Some ls =>
              match Entry ls with
              | BackupProgressEntry_Summary summary =>
                  ({| bytesSinceLastStat :=
                        wrap64 (bytesSinceLastStat v + DataAdded summary);
                      howFarBack := n |}, None)
              | _ => ({| bytesSinceLastStat := bytesSinceLastStat v;
                         howFarBack := n |}, None)
              end
          | None => ({| bytesSinceLastStat := bytesSinceLastStat v;
                        howFarBack := n |}, None)
          end
      | _ => ({| bytesSinceLastStat := bytesSinceLastStat v;
                 howFarBack := n |}, None)
      end
  end.

Definition scanInit : scanVars := {| bytesSinceLastStat := -1; howFarBack := 0 |}.

(** The final test on the two variables, after an iteration without error. *)
Definition decide (v : scanVars) : bool :=
  if statOperationsThreshold <=? howFarBack v then true
  else if (bytesSinceLastStat v =? -1) || (statBytesThreshold <? bytesSinceLastStat v)
       then true
       else false.

Definition shouldRun (t : StatsTask) : M (bool * option error) :=
  '(v, err) <- ForEachByRepo (Repo (plan t))
                 (Reversed (CollectLastN (Z.to_nat statOperationsThreshold)))
                 visit scanInit ;;
  match err with
  | Some e => ret (false, Some (fmt_Errorf_w "iterate oplog: " e))
  | None => ret (decide v, None)
  end.

(** ** The collaborators of [Next] and [Run] *)

Definition withId (i : Z) (o : Operation) : Operation :=
  {| Id := i; PlanId := PlanId o; RepoId := RepoId o; SnapshotId := SnapshotId o;
     UnixTimeStartMs := UnixTimeStartMs o; Status := Status o;
     DisplayMessage := DisplayMessage o; Op := Op o |}.

Definition withOutcome (st : OperationStatus) (msg : string) (o : Operation) : Operation :=
  {| Id := Id o; PlanId := PlanId o; RepoId := RepoId o; SnapshotId := SnapshotId o;
     UnixTimeStartMs := UnixTimeStartMs o; Status := st;
     DisplayMessage := msg; Op := Op o |}.

Definition withOp (p : isOperation_Op) (o : Operation) : Operation :=
  {| Id := Id o; PlanId := PlanId o; RepoId := RepoId o; SnapshotId := SnapshotId o;
     UnixTimeStartMs := UnixTimeStartMs o; Status := Status o;
     DisplayMessage := DisplayMessage o; Op := p |}.

(** Modelled from the spec: [OpLog.Add] and [OpLog.Update] of package
    [internal/oplog].  [Append(operation) -> error] persists the operation
    at the end of the log, under a fresh identifier, or fails and leaves
    the log as it was; an update writes the record back in place. *)
Definition OpLog_Add (o : Operation) : M (Operation * option error) :=
  l <- getOpLog ;;
  match addFault l with
  | Some e => ret (o, Some e)
  | None =>
      let o' := withId (1 + Z.of_nat (List.length (ops l))) o in
      _ <- putOpLog {| ops := ops l ++ [o']; iterFault := iterFault l;
                        addFault := addFault l |} ;;
      _ <- emit (EvOpLogAdd o') ;;
      ret (o', None)
  end.

(** Modelled from the spec: [OpLog.Update], by which the "result or error
    is written back into the operation record". *)
Definition OpLog_Update (o : Operation) : M unit :=
  l <- getOpLog ;;
  _ <- putOpLog {| ops := map (fun x => if Id x =? Id o then o else x) (ops l);
                    iterFault := iterFault l; addFault := addFault l |} ;;
  emit (EvOpLogUpdate o).

Definition setTaskOp (o : option Operation) (t : StatsTask) : StatsTask :=
  {| op := o; plan := plan t; linkSnapshot := linkSnapshot t; at_ := at_ t |}.

Definition setAt (a : option Time) (t : StatsTask) : StatsTask :=
  {| op := op t; plan := plan t; linkSnapshot := linkSnapshot t; at_ := a |}.

(** Modelled from the spec: [TaskWithOperation.setOperation], declared
    with the other tasks of the package, outside the file embedded here.
    The new operation is "handed to the OperationLog for
    persistence"; when that succeeds the task keeps the persisted
    operation. *)
Definition setOperation (o : Operation) (t : StatsTask) : M (option error * StatsTask) :=
  '(o', err) <- OpLog_Add o ;;
  match err with
  | Some e => ret (Some (fmt_Errorf_w "task failed to add operation to oplog: " e), t)
  | None => ret (None, setTaskOp (Some o') t)
  end.

(** Modelled from the spec: [TaskWithOperation.runWithOpAndContext], the
    "enclosing run-wrapper".  It runs the action on the task's operation,
    "signals ERROR with the failure's message" when the action fails and
    SUCCESS otherwise, writes the record back into the log, and returns
    the action's error.  A task that was never given an operation has
    nothing to run on. *)
Definition runWithOpAndContext
    (do : Operation -> M (Operation * option error)) (t : StatsTask)
    : M (option error * StatsTask) :=
  match op t with
  | None => ret (Some (errors_New "task has no operation"), t)
  | Some o =>
      '(o1, err) <- do (withOutcome STATUS_INPROGRESS (DisplayMessage o) o) ;;
      let o2 := match err with
                | Some e => withOutcome STATUS_ERROR (Error e) o1
                | None => withOutcome STATUS_SUCCESS (DisplayMessage o1) o1
                end in
      _ <- OpLog_Update o2 ;;
      ret (err, setTaskOp (Some o2) t)
  end.

(** The repositories the orchestrator is configured with, searched by
    identifier. *)
Fixpoint lookupRepo (repoId : string) (l : list (string * RepoOrchestrator))
    : option RepoOrchestrator :=
  match l with
  | [] => None
  | (k, r) :: rest => if String.eqb k repoId then Some r else lookupRepo repoId rest
  end.

(** Modelled from the spec: [Orchestrator.GetRepo],
    [Resolve(repoId) -> (handle, error)]: a handle for a repository the
    orchestrator knows, an error otherwise. *)
Definition GetRepo (repoId : string) : M (RepoOrchestrator + error) :=
  _ <- emit (EvGetRepo repoId) ;;
  fun w => (match lookupRepo repoId (repos w) with
            | Some r => inl r
            | None => inr (errors_New "repo not found")
            end, w).

(** Modelled from the spec: [RepoOrchestrator.Stats],
    [handle.GatherStatistics(context) -> (stats, error)]. *)
Definition Repo_Stats (r : RepoOrchestrator) : M (RepoStats + error) :=
  _ <- emit (EvRepoStats (Repo_Id (repoConfig r))) ;;
  ret (statsResult r).

(** Modelled from the spec: [RepoOrchestrator.Config] on the handle that
    [GetRepo] answered, nil ([None]) when resolution failed: "if resolution
    itself failed, hook dispatch proceeds with an empty/unresolved repo
    configuration". *)
Definition Config (r : option RepoOrchestrator) : option RepoConfig :=
  match r with
  | Some r => Some (repoConfig r)
  | None => None
  end.

(** Modelled from the spec: [hookExecutor.ExecuteHooks],
    [Dispatch(config, plan, snapshotLinkId, conditions, vars)], called
    synchronously and "fire-and-forget": it is recorded and returns. *)
Definition ExecuteHooks (repo : option RepoConfig) (p : Plan) (snapshotId : string)
    (events : list Hook_Condition) (vars : HookVars) : M unit :=
  emit (EvExecuteHooks {| hook_repo := repo; hook_plan := p;
                          hook_snapshotId := snapshotId; hook_events := events;
                          hook_vars := vars |}).

(** ** StatsTask: Name, Next, Run *)

Section Task.

(** Two helpers the file uses and does not define: the [%q] verb of
    package [fmt] (Go's quoting of a string) and the package's
    [timeToUnixMillis]. *)
Variable quote : string -> string.
Variable timeToUnixMillis : Time -> Z.

Definition Name (t : StatsTask) : string :=
  ("stats for plan " ++ quote (Plan_Id (plan t)))%string.

(** [now] is received and never read. *)
Definition Next (now : Time) (t : StatsTask) : M (option Time * StatsTask) :=
  let ret_ := at_ t in
  match ret_ with
  | Some at0 =>
      let t := setAt None t in
      '(shouldRun_, err) <- shouldRun t ;;
      _ <- match err with
           | Some e => emit (EvErrorf (Name t) "failed to check if it should run" e)
           | None => ret tt
           end ;;
      if negb shouldRun_ then ret (None, t)
      else
        '(err, t) <- setOperation
                       {| Id := 0;
                          PlanId := Plan_Id (plan t);
                          RepoId := Repo (plan t);
                          SnapshotId := linkSnapshot t;
                          UnixTimeStartMs := timeToUnixMillis at0;
                          Status := STATUS_PENDING;
                          DisplayMessage := "";
                          Op := Operation_OperationStats None |} t ;;
        match err with
        | Some e =>
            _ <- emit (EvErrorf (Name t) "failed to add operation to oplog" e) ;;
            ret (None, t)
        | None => ret (ret_, t)
        end
  | None => ret (ret_, t)
  end.

(** The action [Run] hands to the run-wrapper. *)
Definition statsAction (t : StatsTask) (o : Operation) : M (Operation * option error) :=
  repo <- GetRepo (Repo (plan t)) ;;
  match repo with
  | inr err =>
      ret (o, Some (fmt_Errorf_w ("get repo " ++ quote (Repo (plan t)) ++ ": ") err))
  | inl repo =>
      stats <- Repo_Stats repo ;;
      match stats with
      | inr err => ret (o, Some (fmt_Errorf_w "get stats: " err))
      | inl stats =>
          ret (withOp (Operation_OperationStats (Some {| Stats := Some stats |})) o,
               None)
      end
  end.

Definition Run (t : StatsTask) : M (option error * StatsTask) :=
  match Retention (plan t) with
  | None => ret (Some (errors_New "plan does not have a retention policy"), t)
  | Some _ =>
      '(err, t) <- runWithOpAndContext (statsAction t) t ;;
      match err with
      | Some e =>
          repo <- GetRepo (Repo (plan t)) ;;
          let repo := match repo with inl r => Some r | inr _ => None end in
          _ <- ExecuteHooks (Config repo) (plan t) "" [Hook_CONDITION_ANY_ERROR]
                 {| Task := Name t; Error_ := Error e |} ;;
          ret (Some e, t)
      | None => ret (None, t)
      end
  end.

End Task.

(** ** Reading a log *)

(** An operation the visitor counts: neither PENDING nor INPROGRESS. *)
Definition settled (o : Operation) : bool :=
  match Status o with
  | STATUS_PENDING | STATUS_INPROGRESS => false
  | _ => true
  end.

Definition isStats (o : Operation) : bool :=
  match Op o with Operation_OperationStats _ => true | _ => false end.

(** The bytes a backup's terminal summary reports; 0 for everything else. *)
Definition dataAdded (o : Operation) : Z :=
  match Op o with
  | Operation_OperationBackup b =>
      match LastStatus b with
      | Some ls =>
          match Entry ls with
          | BackupProgressEntry_Summary s => DataAdded s
          | _ => 0
          end
      | None => 0
      end
  | _ => 0
  end.

Fixpoint takeWhile {A : Type} (p : A -> bool) (l : list A) : list A :=
  match l with
  | [] => []
  | x :: rest => if p x then x :: takeWhile p rest else []
  end.

Definition Zsum (l : list Z) : Z := fold_right Z.add 0 l.

(** The operations handed to the visitor, newest first: the last 100
    operations of the repository. *)
Definition window (repo : string) (l : OpLogT) : list Operation :=
  Reversed (CollectLastN (Z.to_nat statOperationsThreshold)) (byRepo repo (ops l)).

(** In a newest-first list: the settled entries newer than the most recent
    settled Stats operation (all settled entries when there is none). *)
Definition sinceBaseline (W : list Operation) : list Operation :=
  takeWhile (fun o => negb (isStats o)) (filter settled W).

Definition baselineFound (W : list Operation) : bool :=
  existsb isStats (filter settled W).

(** Settled entries examined: those newer than the baseline, and the
    baseline itself when there is one. *)
Definition scanned (W : list Operation) : Z :=
  Z.of_nat (List.length (sinceBaseline W)) + (if baselineFound W then 1 else 0).

Definition bytesAdded (W : list Operation) : Z :=
  Zsum (map dataAdded (sinceBaseline W)).

(** The accumulator after a scan that starts from [b]: the summaries'
    bytes added onto [b] in [int64], and 0 when a baseline is reached with
    the accumulator at -1. *)
Definition accumulatedFrom (b : Z) (W : list Operation) : Z :=
  let s := wrap64 (b + bytesAdded W) in
  if baselineFound W && (s =? -1) then 0 else s.

(** The scan starts from the sentinel -1. *)
Definition accumulated (W : list Operation) : Z := accumulatedFrom (-1) W.

(** The variables after the scan of a window. *)
Definition scan (W : list Operation) : scanVars := fst (forOps W visit scanInit).

(** The decision as the specification words it: true when the count
    reaches 100 without a Stats operation being found, or no Stats
    operation was found in the window, or the accumulated bytes exceed the
    threshold. *)
Definition spec_decision (W : list Operation) : bool :=
  ((statOperationsThreshold <=? scanned W) && negb (baselineFound W))
  || negb (baselineFound W)
  || (statBytesThreshold <? accumulated W).

(** The window as the specification words it: the most recent 100 entries
    that are not unsettled. *)
Definition spec_window (repo : string) (l : OpLogT) : list Operation :=
  firstn (Z.to_nat statOperationsThreshold) (filter settled (rev (byRepo repo (ops l)))).

Definition hookCalls (tr : list event) : list HookCall :=
  flat_map (fun e => match e with EvExecuteHooks c => [c] | _ => [] end) tr.

(** ** Sample logs *)

Definition GiB : Z := 1024 * 1024 * 1024.

Definition mkOp (st : OperationStatus) (p : isOperation_Op) : Operation :=
  {| Id := 0; PlanId := "p1"; RepoId := "r1"; SnapshotId := "";
     UnixTimeStartMs := 0; Status := st; DisplayMessage := ""; Op := p |}.

Definition backupOp (st : OperationStatus) (added : Z) : Operation :=
  mkOp st (Operation_OperationBackup
             {| LastStatus := Some {| Entry := BackupProgressEntry_Summary
                                                 {| DataAdded := added |} |} |}).

Definition statsOp : Operation :=
  mkOp STATUS_SUCCESS
       (Operation_OperationStats (Some {| Stats := Some {| TotalSize := 0; SnapshotCount := 0 |} |})).

Definition plan1 : Plan :=
  {| Plan_Id := "p1"; Repo := "r1"; Retention := Some {| KeepLastN := 0 |} |}.

Definition task1 (a : option Time) : StatsTask :=
  {| op := None; plan := plan1; linkSnapshot := ""; at_ := a |}.

Definition repo1 (r : RepoStats + error) : RepoOrchestrator :=
  {| repoConfig := {| Repo_Id := "r1"; Uri := "/srv/r1" |}; statsResult := r |}.

(** A world holding the given log (oldest first) and repositories. *)
Definition world (l : list Operation) (iter add : option error)
    (rs : list (string * RepoOrchestrator)) : Orchestrator :=
  {| OpLog := {| ops := l; iterFault := iter; addFault := add |};
     repos := rs; trace := [] |}.

Definition healthy (l : list Operation) : Orchestrator := world l None None [].

(** 99 settled backups without new data are newer than a Stats operation. *)
Definition log_stats_100th : list Operation :=
  statsOp :: repeat (backupOp STATUS_SUCCESS 0) 99.

(** Scenario B as worded: five backups of 3 GiB, then the Stats operation
    as the most recent entry. *)
Definition log_scenarioB : list Operation :=
  repeat (backupOp STATUS_SUCCESS (3 * GiB)) 5 ++ [statsOp].

(** The five backups are newer than the Stats operation. *)
Definition log_backups_newer : list Operation :=
  statsOp :: repeat (backupOp STATUS_SUCCESS (3 * GiB)) 5.

(** 100 settled backups of one byte each, then one pending operation. *)
Definition log_pending_newest : list Operation :=
  repeat (backupOp STATUS_SUCCESS 1) 100 ++ [backupOp STATUS_PENDING 0].

Definition ioErr : error := errors_New "bbolt: database not open".

(** The world after one more effect. *)
Definition logged (e : event) (w : Orchestrator) : Orchestrator :=
  {| OpLog := OpLog w; repos := repos w; trace := trace w ++ [e] |}.

(** The quiet log as the specification words it, for the whole log of the
    repository read newest first: fewer than 100 settled entries are newer
    than the most recent Stats operation (or exist, when there is none),
    and their summaries add at most the threshold. *)
Definition spec_quiet (L : list Operation) : Prop :=
  Z.of_nat (List.length (sinceBaseline L)) < 100 /\
  bytesAdded L <= statBytesThreshold /\
  (baselineFound L = false -> Z.of_nat (List.length (filter settled L)) < 100).

(** Scenario C: two backups of 1 GiB since the last Stats operation. *)
Definition log_scenarioC : list Operation :=
  statsOp :: repeat (backupOp STATUS_SUCCESS GiB) 2.

(** The operation [Next] builds for a consumed instant, before the log
    numbers it. *)
Definition pendingOp (startMs : Z) (t : StatsTask) : Operation :=
  {| Id := 0; PlanId := Plan_Id (plan t); RepoId := Repo (plan t);
     SnapshotId := linkSnapshot t; UnixTimeStartMs := startMs;
     Status := STATUS_PENDING; DisplayMessage := "";
     Op := Operation_OperationStats None |}.

(** ** NewOneoffStatsTask and repeated polling *)

(** The constructor: the orchestrator pointer it stores is the state of
    [M]; the task starts without an operation and with its slot set. *)
Definition NewOneoffStatsTask (plan : Plan) (linkSnapshot : string) (at0 : Time)
    : StatsTask :=
  {| op := None; plan := plan; linkSnapshot := linkSnapshot; at_ := Some at0 |}.

(** A scheduler polling one task again and again, at the given times: the
    answers in order, and the task and orchestrator left behind. *)
Fixpoint polls (quote : string -> string) (timeToUnixMillis : Time -> Z)
    (nows : list Time) (t : StatsTask) : M (list (option Time) * StatsTask) :=
  match nows with
  | [] => ret ([], t)
  | now :: rest =>
      '(r, t1) <- Next quote timeToUnixMillis now t ;;
      '(rs, t2) <- polls quote timeToUnixMillis rest t1 ;;
      ret (r :: rs, t2)
  end.

(** What became of the task's operation in the log: every stored record
    with the identifier of [o] is replaced by [o]. *)
Definition written (o : Operation) (l : list Operation) : list Operation :=
  map (fun x => if Id x =? Id o then o else x) l.

Definition MiB : Z := 1024 * 1024.

(** Scenario A: 150 settled backups of 1 MiB and no Stats operation. *)
Definition log_scenarioA : list Operation := repeat (backupOp STATUS_SUCCESS MiB) 150.

(** ** The collaborators left open *)

(** [shouldRun] with the collector of its call to [ForEachByRepo] left
    open: the visitor, the two variables and the final test are those of
    [shouldRun], which is the instance at
    [Reversed (CollectLastN statOperationsThreshold)]. *)
Definition shouldRunWith (collector : list Operation -> list Operation)
    (t : StatsTask) : M (bool * option error) :=
  '(v, err) <- ForEachByRepo (Repo (plan t)) collector visit scanInit ;;
  match err with
  | Some e => ret (false, Some (fmt_Errorf_w "iterate oplog: " e))
  | None => ret (decide v, None)
  end.

(** Modelled from the spec: the iteration of section 4.1, "bounded to the
    most recent K entries that are not themselves unsettled
    (PENDING/IN_PROGRESS entries are skipped and do not consume the
    bound)".  Reading newest first, unsettled entries are handed over as
    they come and the iteration ends once [n] settled entries were handed
    over. *)
Fixpoint takeSettled (n : nat) (l : list Operation) : list Operation :=
  match l with
  | [] => []
  | o :: rest =>
      if settled o
      then match n with
           | O => []
           | S k => o :: takeSettled k rest
           end
      else o :: takeSettled n rest
  end.

(** Modelled from the spec: a collector that bounds the window as section
    4.1 words it, handing over newest first. *)
Definition CollectLastNSettled (n : nat) (ids : list Operation) : list Operation :=
  takeSettled n (rev ids).

(** How a Go call ends: it returns, or it panics (a nil dereference). *)
Inductive outcome (A : Type) : Type :=
| Returned (a : A)
| Panicked.

Arguments Returned {A} a.
Arguments Panicked {A}.

Section RunWith.

Variable quote : string -> string.

(** [RepoOrchestrator.Config], whose body is not part of [taskstats.go]:
    what it answers on the handle it is called on, nil ([None]) included,
    or that it panics there. *)
Variable ConfigOn : option RepoOrchestrator -> outcome (option RepoConfig).

(** [Run] with the call [repo.Config()] of its failure path left open.  The
    handle is the one [GetRepo] answered, its error dropped ([repo, _ :=]):
    nil when the repository could not be resolved.  A panic of [Config]
    unwinds [Run] before the hook is dispatched and before anything is
    returned. *)
Definition RunWith (t : StatsTask) : M (outcome (option error * StatsTask)) :=
  match Retention (plan t) with
  | None => ret (Returned (Some (errors_New "plan does not have a retention policy"), t))
  | Some _ =>
      '(err, t) <- runWithOpAndContext (statsAction quote t) t ;;
      match err with
      | Some e =>
          repo <- GetRepo (Repo (plan t)) ;;
          let repo := match repo with inl r => Some r | inr _ => None end in
          match ConfigOn repo with
          | Panicked => ret Panicked
          | Returned cfg =>
              _ <- ExecuteHooks cfg (plan t) "" [Hook_CONDITION_ANY_ERROR]
                     {| Task := Name quote t; Error_ := Error e |} ;;
              ret (Returned (Some e, t))
          end
      | None => ret (Returned (None, t))
      end
  end.

End RunWith.


(** * Properties *)

(** ** Wrap-around *)

Lemma wrap64_in_range (z : Z) : in_int64 (wrap64 z).
Proof.
  unfold in_int64, wrap64.
  pose proof (Z.mod_pos_bound (z + 2 ^ 63) (2 ^ 64) eq_refl) as H.
  change (2 ^ 64) with (2 * 2 ^ 63) in *. lia.
Qed.

Lemma wrap64_id (z : Z) : in_int64 z -> wrap64 z = z.
Proof.
  unfold in_int64, wrap64. intros H.
  rewrite Z.mod_small; [lia|].
  change (2 ^ 64) with (2 * 2 ^ 63). lia.
Qed.

Lemma wrap64_add_l (a b : Z) : wrap64 (wrap64 a + b) = wrap64 (a + b).
Proof.
  unfold wrap64. f_equal.
  replace ((a + 2 ^ 63) mod 2 ^ 64 - 2 ^ 63 + b + 2 ^ 63)
    with ((a + 2 ^ 63) mod 2 ^ 64 + b) by lia.
  replace (a + b + 2 ^ 63) with ((a + 2 ^ 63) + b) by lia.
  now rewrite Z.add_mod_idemp_l by lia.
Qed.

(** ** The scan *)

Lemma settled_visit_skip (o : Operation) (v : scanVars) :
  settled o = false -> visit o v = (v, None).
Proof. unfold settled, visit. destruct (Status o); congruence. Qed.

Lemma settled_visit_stats (o : Operation) (v : scanVars) :
  settled o = true -> isStats o = true ->
  visit o v = ({| bytesSinceLastStat :=
                    if bytesSinceLastStat v =? -1 then 0 else bytesSinceLastStat v;
                  howFarBack := howFarBack v + 1 |}, Some ErrStopIteration).
Proof.
  unfold settled, isStats, visit.
  destruct (Status o); try congruence; destruct (Op o); congruence.
Qed.

Lemma settled_visit_other (o : Operation) (v : scanVars) :
  in_int64 (bytesSinceLastStat v) ->
  settled o = true -> isStats o = false ->
  visit o v = ({| bytesSinceLastStat := wrap64 (bytesSinceLastStat v + dataAdded o);
                  howFarBack := howFarBack v + 1 |}, None).
Proof.
  intros Hb. unfold settled, isStats, visit, dataAdded.
  assert (E : wrap64 (bytesSinceLastStat v + 0) = bytesSinceLastStat v)
    by (rewrite Z.add_0_r; now apply wrap64_id).
  destruct (Status o); try congruence;
    (destruct (Op o) as [|b|s|k]; try congruence;
     destruct (LastStatus b) as [ls|]; [destruct (Entry ls)|]; congruence).
Qed.

Lemma scan_cons_unsettled (o : Operation) (W : list Operation) :
  settled o = false ->
  sinceBaseline (o :: W) = sinceBaseline W /\
  baselineFound (o :: W) = baselineFound W.
Proof.
  intros H. unfold sinceBaseline, baselineFound. simpl. now rewrite H.
Qed.

Lemma scan_cons_stats (o : Operation) (W : list Operation) :
  settled o = true -> isStats o = true ->
  sinceBaseline (o :: W) = [] /\ baselineFound (o :: W) = true.
Proof.
  intros H1 H2. unfold sinceBaseline, baselineFound. simpl.
  rewrite H1. simpl. now rewrite H2.
Qed.

Lemma scan_cons_other (o : Operation) (W : list Operation) :
  settled o = true -> isStats o = false ->
  sinceBaseline (o :: W) = o :: sinceBaseline W /\
  baselineFound (o :: W) = baselineFound W.
Proof.
  intros H1 H2. unfold sinceBaseline, baselineFound. simpl.
  rewrite H1. simpl. now rewrite H2.
Qed.

(** What the loop leaves in its two variables, read off the window: the
    iteration itself never fails. *)
Lemma forOps_visit (W : list Operation) : forall v : scanVars,
  in_int64 (bytesSinceLastStat v) ->
  forOps W visit v =
    ({| bytesSinceLastStat := accumulatedFrom (bytesSinceLastStat v) W;
        howFarBack := howFarBack v + scanned W |}, None).
Proof.
  induction W as [|o W IH]; intros v Hv.
  - simpl. unfold accumulatedFrom, scanned, bytesAdded. simpl.
    rewrite Z.add_0_r, wrap64_id by assumption. destruct v; simpl.
    now rewrite Z.add_0_r.
  - simpl. destruct (settled o) eqn:Hs.
    + destruct (isStats o) eqn:Ht.
      * rewrite settled_visit_stats by assumption. simpl.
        destruct (scan_cons_stats o W Hs Ht) as [E1 E2].
        unfold accumulatedFrom, scanned, bytesAdded. rewrite E1, E2. simpl.
        rewrite Z.add_0_r, wrap64_id by assumption. reflexivity.
      * rewrite settled_visit_other by assumption.
        rewrite IH by (simpl; apply wrap64_in_range). simpl.
        destruct (scan_cons_other o W Hs Ht) as [E1 E2].
        unfold accumulatedFrom, scanned, bytesAdded. rewrite E1, E2.
        cbn [map Zsum fold_right List.length bytesSinceLastStat howFarBack].
        rewrite wrap64_add_l, Nat2Z.inj_succ. fold (Zsum (map dataAdded (sinceBaseline W))).
        rewrite <- Z.add_assoc. f_equal. f_equal. lia.
    + rewrite settled_visit_skip by assumption. rewrite IH by assumption.
      destruct (scan_cons_unsettled o W Hs) as [E1 E2].
      unfold accumulatedFrom, scanned, bytesAdded. now rewrite E1, E2.
Qed.

Lemma scan_spec (W : list Operation) :
  scan W = {| bytesSinceLastStat := accumulated W; howFarBack := scanned W |}.
Proof.
  unfold scan. rewrite forOps_visit by (unfold in_int64; simpl; lia).
  reflexivity.
Qed.

(** ** shouldRun *)

Lemma shouldRun_eval (t : StatsTask) (w : Orchestrator) :
  shouldRun t w =
    (match iterFault (OpLog w) with
     | Some e => (false, Some (fmt_Errorf_w "iterate oplog: " e))
     | None => (decide (scan (window (Repo (plan t)) (OpLog w))), None)
     end, logged (EvForEachByRepo (Repo (plan t))) w).
Proof.
  assert (R : in_int64 (bytesSinceLastStat scanInit))
    by (unfold in_int64; simpl; lia).
  unfold shouldRun, ForEachByRepo, bind, emit, getOpLog, ret, logged, scan.
  cbn [OpLog repos trace].
  destruct (iterFault (OpLog w)) as [e|]; [reflexivity|].
  change (Reversed (CollectLastN (Z.to_nat statOperationsThreshold))
            (byRepo (Repo (plan t)) (ops (OpLog w))))
    with (window (Repo (plan t)) (OpLog w)).
  rewrite (forOps_visit _ scanInit R). reflexivity.
Qed.

Lemma decide_true_iff (v : scanVars) :
  decide v = true <->
  100 <= howFarBack v \/ bytesSinceLastStat v = -1
  \/ 10 * 2 ^ 30 < bytesSinceLastStat v.
Proof.
  unfold decide, statOperationsThreshold, statBytesThreshold.
  change (10 * 1024 * 1024 * 1024) with (10 * 2 ^ 30).
  rewrite <- Z.leb_le, <- Z.eqb_eq, <- Z.ltb_lt.
  destruct (100 <=? howFarBack v), (bytesSinceLastStat v =? -1),
    (10 * 2 ^ 30 <? bytesSinceLastStat v);
    cbv beta iota delta [orb]; intuition congruence.
Qed.

Lemma window_nil (repo : string) (l : OpLogT) :
  byRepo repo (ops l) = [] -> window repo l = [].
Proof. unfold window, Reversed, CollectLastN. now intros ->. Qed.

(** The answer of [shouldRun] on a readable log, read off the window. *)
Lemma shouldRun_true_iff (t : StatsTask) (w : Orchestrator) :
  iterFault (OpLog w) = None ->
  (fst (shouldRun t w) = (true, None) \/ fst (shouldRun t w) = (false, None)) /\
  (fst (shouldRun t w) = (true, None) <->
     100 <= scanned (window (Repo (plan t)) (OpLog w))
     \/ accumulated (window (Repo (plan t)) (OpLog w)) = -1
     \/ 10 * 2 ^ 30 < accumulated (window (Repo (plan t)) (OpLog w))).
Proof.
  intros Hf. rewrite shouldRun_eval, Hf. simpl.
  set (W := window (Repo (plan t)) (OpLog w)).
  pose proof (decide_true_iff (scan W)) as D.
  rewrite scan_spec in D. simpl in D. rewrite scan_spec.
  repeat split.
  - destruct (decide _); auto.
  - intros H. apply D. congruence.
  - intros H. apply D in H. now rewrite H.
Qed.

(** C1 (amended).  When the log can be read, [shouldRun] answers true or
    false without error, and true exactly when the settled entries
    scanned in the window of the last 100 operations, a Stats baseline
    included, number at least 100, or the accumulator still equals the
    sentinel -1 after the scan, or it exceeds 10 * 2^30 bytes.  An empty log
    yields true. *)
Theorem shouldRun_decision (t : StatsTask) (w : Orchestrator) :
  iterFault (OpLog w) = None ->
  (fst (shouldRun t w) = (true, None) \/ fst (shouldRun t w) = (false, None)) /\
  (fst (shouldRun t w) = (true, None) <->
     100 <= scanned (window (Repo (plan t)) (OpLog w))
     \/ accumulated (window (Repo (plan t)) (OpLog w)) = -1
     \/ 10 * 2 ^ 30 < accumulated (window (Repo (plan t)) (OpLog w))) /\
  (byRepo (Repo (plan t)) (ops (OpLog w)) = [] -> fst (shouldRun t w) = (true, None)).
Proof.
  intros Hf. destruct (shouldRun_true_iff t w Hf) as [A B].
  split; [exact A|]. split; [exact B|].
  intros E. rewrite shouldRun_eval, Hf, (window_nil _ _ E). reflexivity.
Qed.

Lemma shouldRun_decision_witness :
  fst (shouldRun (task1 None) (healthy [])) = (true, None).
Proof.
  apply (shouldRun_decision (task1 None) (healthy [])); reflexivity.
Defined.

(** C1, as worded, fails: with 99 settled backups newer than a Stats
    operation the baseline is found, the accumulator is 0, none of the
    three worded conditions holds, and [shouldRun] answers true.  And a
    log of one backup that added five bytes holds no Stats operation, yet
    the accumulator has left the sentinel and [shouldRun] answers false. *)
Lemma shouldRun_decision_not_as_worded :
  (fst (shouldRun (task1 None) (healthy log_stats_100th)) = (true, None) /\
   spec_decision (window "r1" (OpLog (healthy log_stats_100th))) = false /\
   baselineFound (window "r1" (OpLog (healthy log_stats_100th))) = true /\
   scan (window "r1" (OpLog (healthy log_stats_100th)))
     = {| bytesSinceLastStat := 0; howFarBack := 100 |}) /\
  (fst (shouldRun (task1 None) (healthy [backupOp STATUS_SUCCESS 5])) = (false, None) /\
   spec_decision (window "r1" (OpLog (healthy [backupOp STATUS_SUCCESS 5]))) = true /\
   baselineFound (window "r1" (OpLog (healthy [backupOp STATUS_SUCCESS 5]))) = false /\
   scan (window "r1" (OpLog (healthy [backupOp STATUS_SUCCESS 5])))
     = {| bytesSinceLastStat := 4; howFarBack := 1 |}).
Proof. vm_compute. repeat split. Qed.

(** C2 (amended).  When the log can be read, fewer than 100 settled
    entries are scanned in the window (the Stats baseline counted with
    them), the summaries newer than the baseline add between 0 and
    10 * 2^30 bytes, and either a baseline is found or at least one byte
    was added, [shouldRun] answers false. *)
Theorem shouldRun_false_below_thresholds (t : StatsTask) (w : Orchestrator) :
  iterFault (OpLog w) = None ->
  scanned (window (Repo (plan t)) (OpLog w)) < 100 ->
  0 <= bytesAdded (window (Repo (plan t)) (OpLog w)) <= 10 * 2 ^ 30 ->
  baselineFound (window (Repo (plan t)) (OpLog w)) = true
    \/ 1 <= bytesAdded (window (Repo (plan t)) (OpLog w)) ->
  fst (shouldRun t w) = (false, None).
Proof.
  intros Hf Hn Hb Hs.
  destruct (shouldRun_true_iff t w Hf) as [[Ht|Ht] D]; [|exact Ht].
  exfalso. apply D in Ht. clear D.
  set (W := window (Repo (plan t)) (OpLog w)) in *.
  assert (E : wrap64 (-1 + bytesAdded W) = bytesAdded W - 1).
  { rewrite wrap64_id; [lia|]. unfold in_int64.
    change (2 ^ 63) with (2 ^ 33 * 2 ^ 30). lia. }
  unfold accumulated, accumulatedFrom in Ht. cbv zeta in Ht. rewrite E in Ht.
  destruct (baselineFound W); simpl in Ht.
  - destruct (bytesAdded W - 1 =? -1) eqn:E0;
      [apply Z.eqb_eq in E0 | apply Z.eqb_neq in E0]; lia.
  - destruct Hs as [Hs|Hs]; [discriminate|]. lia.
Qed.

Lemma shouldRun_false_below_thresholds_witness :
  fst (shouldRun (task1 None) (healthy log_scenarioC)) = (false, None).
Proof.
  apply (shouldRun_false_below_thresholds (task1 None) (healthy log_scenarioC)).
  - reflexivity.
  - reflexivity.
  - split; apply Z.leb_le; reflexivity.
  - left. reflexivity.
Defined.

(** C2, as worded, fails twice.  The empty log has fewer than 100 settled
    entries and no bytes added, and [shouldRun] answers true.  With 99
    settled backups newer than the Stats operation, fewer than 100 settled
    entries precede the baseline and no bytes were added, and [shouldRun]
    answers true as well. *)
Lemma shouldRun_true_below_worded_thresholds :
  (spec_quiet (rev (byRepo "r1" [])) /\
   fst (shouldRun (task1 None) (healthy [])) = (true, None)) /\
  (spec_quiet (rev (byRepo "r1" log_stats_100th)) /\
   fst (shouldRun (task1 None) (healthy log_stats_100th)) = (true, None)).
Proof.
  unfold spec_quiet. repeat split; try reflexivity;
    try (apply Z.leb_le; vm_compute; reflexivity).
  vm_compute. discriminate.
Qed.

Lemma filter_settled_idem (W : list Operation) :
  filter settled (filter settled W) = filter settled W.
Proof.
  induction W as [|o W IH]; [reflexivity|]. simpl.
  destruct (settled o) eqn:E; [|exact IH]. simpl. now rewrite E, IH.
Qed.

Lemma scan_filter_settled (W : list Operation) :
  scan (filter settled W) = scan W.
Proof.
  rewrite !scan_spec.
  unfold accumulated, accumulatedFrom, scanned, bytesAdded, sinceBaseline,
    baselineFound.
  now rewrite filter_settled_idem.
Qed.

(** The scan reads nothing past the most recent settled Stats operation. *)
Lemma scan_settled_prefix (W pre rest : list Operation) (s : Operation) :
  filter settled W = pre ++ s :: rest ->
  forallb (fun o => negb (isStats o)) pre = true ->
  isStats s = true ->
  sinceBaseline W = pre /\ baselineFound W = true.
Proof.
  unfold sinceBaseline, baselineFound. intros -> Hp Hs. clear W.
  induction pre as [|o pre IH]; simpl.
  - now rewrite Hs.
  - simpl in Hp. apply andb_true_iff in Hp as [Ho Hp].
    rewrite Ho. destruct (IH Hp) as [-> ->].
    split; [reflexivity | apply orb_true_r].
Qed.

(** C3 (amended).  When the most recent settled entry of the window is a
    Stats operation, the scan stops at it: whatever lies further back, five
    backups of 3 GiB included, is not read, the accumulator is 0, one entry
    was counted and [shouldRun] answers false.  When instead the five most
    recent settled entries add 3 GiB each and the next settled entry is a
    Stats operation, the accumulator ends at 15 GiB less one byte, above
    the threshold, and [shouldRun] answers true. *)
Theorem scenarioB_scan (t : StatsTask) (w : Orchestrator) :
  iterFault (OpLog w) = None ->
  (forall s older,
     filter settled (window (Repo (plan t)) (OpLog w)) = s :: older ->
     isStats s = true ->
     scan (window (Repo (plan t)) (OpLog w))
       = {| bytesSinceLastStat := 0; howFarBack := 1 |} /\
     fst (shouldRun t w) = (false, None)) /\
  (forall b1 b2 b3 b4 b5 s older,
     filter settled (window (Repo (plan t)) (OpLog w))
       = [b1; b2; b3; b4; b5] ++ s :: older ->
     Forall (fun b => dataAdded b = 3 * GiB) [b1; b2; b3; b4; b5] ->
     isStats s = true ->
     scan (window (Repo (plan t)) (OpLog w))
       = {| bytesSinceLastStat := 15 * GiB - 1; howFarBack := 6 |} /\
     statBytesThreshold < 15 * GiB - 1 /\
     fst (shouldRun t w) = (true, None)).
Proof.
  intros Hf. split.
  - intros s older E Hs.
    destruct (scan_settled_prefix _ [] older s E eq_refl Hs) as [E1 E2].
    assert (Sc : scan (window (Repo (plan t)) (OpLog w))
                 = {| bytesSinceLastStat := 0; howFarBack := 1 |}).
    { rewrite scan_spec.
      unfold accumulated, accumulatedFrom, scanned, bytesAdded.
      now rewrite E1, E2. }
    split; [exact Sc|].
    rewrite shouldRun_eval, Hf. simpl. now rewrite Sc.
  - intros b1 b2 b3 b4 b5 s older E Hb Hs.
    assert (Hn : forallb (fun o => negb (isStats o)) [b1; b2; b3; b4; b5] = true).
    { apply forallb_forall. intros b Hin.
      rewrite Forall_forall in Hb. specialize (Hb b Hin).
      unfold dataAdded in Hb. unfold isStats.
      destruct (Op b); try reflexivity. vm_compute in Hb. discriminate. }
    destruct (scan_settled_prefix _ _ older s E Hn Hs) as [E1 E2].
    assert (Sc : scan (window (Repo (plan t)) (OpLog w))
                 = {| bytesSinceLastStat := 15 * GiB - 1; howFarBack := 6 |}).
    { rewrite scan_spec.
      unfold accumulated, accumulatedFrom, scanned, bytesAdded.
      rewrite E1, E2.
      repeat match goal with
             | H : Forall _ (_ :: _) |- _ => inversion H; subst; clear H
             end.
      cbn [map Zsum fold_right].
      repeat match goal with H : dataAdded _ = _ |- _ => rewrite H; clear H end.
      reflexivity. }
    split; [exact Sc|]. split; [reflexivity|].
    rewrite shouldRun_eval, Hf. simpl. now rewrite Sc.
Qed.

Lemma scenarioB_scan_witness :
  fst (shouldRun (task1 None) (healthy log_scenarioB)) = (false, None) /\
  fst (shouldRun (task1 None) (healthy log_backups_newer)) = (true, None).
Proof.
  split.
  - apply (proj1 (scenarioB_scan (task1 None) (healthy log_scenarioB) eq_refl)
             statsOp (repeat (backupOp STATUS_SUCCESS (3 * GiB)) 5));
      reflexivity.
  - apply (proj2 (scenarioB_scan (task1 None) (healthy log_backups_newer) eq_refl)
             (backupOp STATUS_SUCCESS (3 * GiB)) (backupOp STATUS_SUCCESS (3 * GiB))
             (backupOp STATUS_SUCCESS (3 * GiB)) (backupOp STATUS_SUCCESS (3 * GiB))
             (backupOp STATUS_SUCCESS (3 * GiB)) statsOp []).
    + reflexivity.
    + repeat constructor.
    + reflexivity.
Defined.

(** C3, as worded, fails: with the Stats operation as the most recent
    settled entry and five backups of 3 GiB further back, the accumulator
    is 0, not 15 GiB, and [shouldRun] answers false. *)
Lemma scenarioB_as_worded_stops_at_baseline :
  scan (window "r1" (OpLog (healthy log_scenarioB)))
    = {| bytesSinceLastStat := 0; howFarBack := 1 |} /\
  fst (shouldRun (task1 None) (healthy log_scenarioB)) = (false, None).
Proof. vm_compute. split; reflexivity. Qed.

(** ** The window *)

Lemma window_length (repo : string) (l : OpLogT) :
  List.length (window repo l)
  = Nat.min 100 (List.length (byRepo repo (ops l))).
Proof.
  unfold window, Reversed, CollectLastN.
  rewrite length_rev, length_skipn.
  change (Z.to_nat statOperationsThreshold) with 100%nat. lia.
Qed.

Lemma scanned_le_settled (W : list Operation) :
  scanned W <= Z.of_nat (List.length (filter settled W)).
Proof.
  unfold scanned, sinceBaseline, baselineFound.
  generalize (filter settled W).
  intros l. induction l as [|o l IH]; [simpl; lia|].
  cbn [takeWhile existsb].
  destruct (isStats o); cbn [negb orb List.length];
    rewrite ?Nat2Z.inj_succ; simpl Z.of_nat; lia.
Qed.

(** [howFarBack] never leaves the range of a Go [int]: it is at most the
    bound of the window. *)
Lemma scan_howFarBack_bound (repo : string) (l : OpLogT) :
  0 <= howFarBack (scan (window repo l)) <= 100.
Proof.
  rewrite scan_spec. cbn [howFarBack].
  pose proof (scanned_le_settled (window repo l)) as H1.
  pose proof (filter_length_le settled (window repo l)) as H2.
  pose proof (window_length repo l) as H3.
  split; [|lia].
  unfold scanned. destruct (baselineFound (window repo l)); lia.
Qed.

(** With the collector of the file, which keeps the last 100 operations
    whatever their status: inside the window the PENDING and INPROGRESS
    entries are skipped and leave both variables untouched, so the decision
    is the one the settled entries of the window give; settled and
    unsettled entries of the window together number min(100, size of the
    log). *)
Lemma unsettled_skipped_inside_window (t : StatsTask) (w : Orchestrator) :
  iterFault (OpLog w) = None ->
  fst (shouldRun t w)
    = (decide (scan (filter settled (window (Repo (plan t)) (OpLog w)))), None) /\
  (List.length (filter settled (window (Repo (plan t)) (OpLog w)))
   + List.length (filter (fun o => negb (settled o))
                         (window (Repo (plan t)) (OpLog w)))
   = Nat.min 100 (List.length (byRepo (Repo (plan t)) (ops (OpLog w)))))%nat /\
  howFarBack (scan (window (Repo (plan t)) (OpLog w)))
    <= Z.of_nat (List.length (filter settled (window (Repo (plan t)) (OpLog w)))).
Proof.
  intros Hf. split; [|split].
  - rewrite shouldRun_eval, Hf, scan_filter_settled. reflexivity.
  - rewrite filter_length. apply window_length.
  - rewrite scan_spec. cbn [howFarBack]. apply scanned_le_settled.
Qed.

(** A collector that bounds by position alone does not hand over the
    window of section 4.1: with one PENDING operation newer than 100
    settled backups, the last 100 operations hold 99 settled entries, and
    the decision on them is false where the most recent 100 settled
    entries give true. *)
Lemma unsettled_entries_consume_bound :
  List.length (filter settled (window "r1" (OpLog (healthy log_pending_newest))))
    = 99%nat /\
  List.length (spec_window "r1" (OpLog (healthy log_pending_newest))) = 100%nat /\
  fst (shouldRun (task1 None) (healthy log_pending_newest)) = (false, None) /\
  decide (scan (spec_window "r1" (OpLog (healthy log_pending_newest)))) = true.
Proof. vm_compute. repeat split. Qed.

Lemma shouldRun_shouldRunWith (t : StatsTask) :
  shouldRun t
  = shouldRunWith (Reversed (CollectLastN (Z.to_nat statOperationsThreshold))) t.
Proof. reflexivity. Qed.


Lemma filter_takeSettled (l : list Operation) : forall n : nat,
  filter settled (takeSettled n l) = firstn n (filter settled l).
Proof.
  induction l as [|o l IH]; intros n; [now destruct n|].
  cbn [takeSettled filter]. destruct (settled o) eqn:E.
  - destruct n as [|k]; [reflexivity|].
    cbn [filter firstn]. now rewrite E, IH.
  - cbn [filter]. now rewrite E, IH.
Qed.

(** The collector of section 4.1 hands over, among unsettled entries, the
    most recent 100 settled entries of the log. *)
Lemma CollectLastNSettled_window (repo : string) (l : OpLogT) :
  filter settled (CollectLastNSettled 100 (byRepo repo (ops l))) = spec_window repo l.
Proof. unfold CollectLastNSettled, spec_window. apply filter_takeSettled. Qed.




(** ** Next *)

Section NextFacts.

Variable quote : string -> string.
Variable timeToUnixMillis : Time -> Z.

Lemma Next_empty (now : Time) (t : StatsTask) (w : Orchestrator) :
  at_ t = None -> Next quote timeToUnixMillis now t w = ((None, t), w).
Proof. intros H. unfold Next. rewrite H. reflexivity. Qed.

Lemma Next_iter_error (now a : Time) (t : StatsTask) (w : Orchestrator) (e : error) :
  at_ t = Some a -> iterFault (OpLog w) = Some e ->
  Next quote timeToUnixMillis now t w =
    ((None, setAt None t),
     logged (EvErrorf (Name quote t) "failed to check if it should run"
               (fmt_Errorf_w "iterate oplog: " e))
       (logged (EvForEachByRepo (Repo (plan t))) w)).
Proof.
  intros Ha Hf. unfold Next. rewrite Ha.
  unfold bind at 1. rewrite shouldRun_eval, Hf. reflexivity.
Qed.

Lemma Next_skip (now a : Time) (t : StatsTask) (w : Orchestrator) :
  at_ t = Some a -> iterFault (OpLog w) = None ->
  decide (scan (window (Repo (plan t)) (OpLog w))) = false ->
  Next quote timeToUnixMillis now t w = ((None, setAt None t), logged (EvForEachByRepo (Repo (plan t))) w).
Proof.
  intros Ha Hf Hd. unfold Next. rewrite Ha.
  unfold bind at 1. rewrite shouldRun_eval, Hf. cbn [plan setAt].
  rewrite Hd. reflexivity.
Qed.

Lemma Next_add_error (now a : Time) (t : StatsTask) (w : Orchestrator) (e : error) :
  at_ t = Some a -> iterFault (OpLog w) = None ->
  decide (scan (window (Repo (plan t)) (OpLog w))) = true ->
  addFault (OpLog w) = Some e ->
  Next quote timeToUnixMillis now t w =
    ((None, setAt None t),
     logged (EvErrorf (Name quote t) "failed to add operation to oplog"
               (fmt_Errorf_w "task failed to add operation to oplog: " e))
       (logged (EvForEachByRepo (Repo (plan t))) w)).
Proof.
  intros Ha Hf Hd He. unfold Next. rewrite Ha.
  unfold bind at 1. rewrite shouldRun_eval, Hf. cbn [plan setAt].
  rewrite Hd.
  unfold setOperation, OpLog_Add, bind, getOpLog, ret, emit, logged.
  cbn [OpLog negb]. rewrite He. reflexivity.
Qed.

Lemma Next_due (now a : Time) (t : StatsTask) (w : Orchestrator) :
  at_ t = Some a -> iterFault (OpLog w) = None ->
  decide (scan (window (Repo (plan t)) (OpLog w))) = true ->
  addFault (OpLog w) = None ->
  let o := withId (1 + Z.of_nat (List.length (ops (OpLog w)))) (pendingOp (timeToUnixMillis a) t) in
  Next quote timeToUnixMillis now t w =
    ((Some a, setTaskOp (Some o) (setAt None t)),
     {| OpLog := {| ops := ops (OpLog w) ++ [o]; iterFault := None;
                    addFault := None |};
        repos := repos w;
        trace := (trace w ++ [EvForEachByRepo (Repo (plan t))]) ++ [EvOpLogAdd o] |}).
Proof.
  intros Ha Hf Hd He. unfold Next. rewrite Ha.
  unfold bind at 1. rewrite shouldRun_eval, Hf. cbn [plan setAt].
  rewrite Hd.
  unfold setOperation, OpLog_Add, bind, getOpLog, putOpLog, ret, emit, logged.
  cbn [OpLog negb repos trace ops iterFault addFault].
  rewrite He, Hf. reflexivity.
Qed.

(** The five ways a poll can go. *)
Lemma Next_cases (now : Time) (t : StatsTask) (w : Orchestrator) :
  (at_ t = None /\ Next quote timeToUnixMillis now t w = ((None, t), w))
  \/ (exists w', Next quote timeToUnixMillis now t w = ((None, setAt None t), w')
                 /\ OpLog w' = OpLog w /\ repos w' = repos w)
  \/ (exists a o w',
        at_ t = Some a
        /\ Next quote timeToUnixMillis now t w = ((Some a, setTaskOp (Some o) (setAt None t)), w')
        /\ UnixTimeStartMs o = timeToUnixMillis a
        /\ Status o = STATUS_PENDING
        /\ ops (OpLog w') = ops (OpLog w) ++ [o]).
Proof.
  destruct (at_ t) as [a|] eqn:Ha.
  2:{ left. split; [reflexivity | now apply Next_empty]. }
  right.
  destruct (iterFault (OpLog w)) as [e|] eqn:Hf.
  { left. eexists. rewrite (Next_iter_error now a t w e Ha Hf). now repeat split. }
  destruct (decide (scan (window (Repo (plan t)) (OpLog w)))) eqn:Hd.
  2:{ left. eexists. rewrite (Next_skip now a t w Ha Hf Hd). now repeat split. }
  destruct (addFault (OpLog w)) as [e|] eqn:He.
  { left. eexists. rewrite (Next_add_error now a t w e Ha Hf Hd He).
    now repeat split. }
  right. do 3 eexists. rewrite (Next_due now a t w Ha Hf Hd He).
  split; [reflexivity|]. split; [reflexivity|]. now repeat split.
Qed.

End NextFacts.

(** C5.  A poll with an empty slot answers not-due and changes nothing:
    neither the task nor the orchestrator, whose trace gains no log scan and
    whose log gains no operation.  Whatever a poll does, the slot is empty
    afterwards, so the poll that follows it answers not-due and changes
    nothing. *)
Theorem slot_consumed_once (quote : string -> string) (timeToUnixMillis : Time -> Z)
    (now now' : Time) (t : StatsTask) (w : Orchestrator) :
  (at_ t = None -> Next quote timeToUnixMillis now t w = ((None, t), w)) /\
  at_ (snd (fst (Next quote timeToUnixMillis now t w))) = None /\
  Next quote timeToUnixMillis now'
       (snd (fst (Next quote timeToUnixMillis now t w)))
       (snd (Next quote timeToUnixMillis now t w))
    = ((None, snd (fst (Next quote timeToUnixMillis now t w))),
       snd (Next quote timeToUnixMillis now t w)).
Proof.
  assert (C : at_ (snd (fst (Next quote timeToUnixMillis now t w))) = None).
  { destruct (Next_cases quote timeToUnixMillis now t w)
      as [[Ha E] | [(w' & E & _) | (a & o & w' & _ & E & _)]];
      rewrite E; simpl; auto. }
  split; [apply Next_empty|]. split; [exact C|].
  now apply Next_empty.
Qed.

(** C9.  When the scan of the log fails during a poll of a scheduled task,
    [shouldRun] answers false with the error; the poll logs the error,
    answers not-due, leaves the log and the task's operation as they were,
    and leaves the slot empty: nothing is retried or rescheduled. *)
Theorem poll_skips_on_engine_error (quote : string -> string)
    (timeToUnixMillis : Time -> Z) (now a : Time) (t : StatsTask)
    (w : Orchestrator) (e : error) :
  at_ t = Some a ->
  iterFault (OpLog w) = Some e ->
  fst (shouldRun (setAt None t) w) = (false, Some (fmt_Errorf_w "iterate oplog: " e)) /\
  exists w',
    Next quote timeToUnixMillis now t w = ((None, setAt None t), w') /\
    trace w' = trace w ++
                 [EvForEachByRepo (Repo (plan t));
                  EvErrorf (Name quote t) "failed to check if it should run"
                    (fmt_Errorf_w "iterate oplog: " e)] /\
    OpLog w' = OpLog w /\
    op (setAt None t) = op t /\
    at_ (setAt None t) = None.
Proof.
  intros Ha Hf. split.
  - rewrite shouldRun_eval, Hf. reflexivity.
  - eexists. rewrite (Next_iter_error quote timeToUnixMillis now a t w e Ha Hf).
    split; [reflexivity|]. unfold logged. cbn [trace OpLog].
    rewrite <- app_assoc. now repeat split.
Qed.

Lemma poll_skips_on_engine_error_witness :
  fst (fst (Next (fun s => s) (fun ns => ns / 1000000) 7 (task1 (Some 5000000))
              (world [] (Some ioErr) None []))) = None.
Proof.
  destruct (poll_skips_on_engine_error (fun s => s) (fun ns => ns / 1000000)
              7 5000000 (task1 (Some 5000000)) (world [] (Some ioErr) None [])
              ioErr eq_refl eq_refl) as [_ [w' [E _]]].
  rewrite E. reflexivity.
Defined.

(** C10.  [Next] never reads [now]: two polls that differ in [now] only
    give the same answer, the same task and the same orchestrator.  The
    answer is nil or the stored instant; when it is the stored instant, the
    operation appended to the log and kept by the task starts at that
    instant. *)
Theorem Next_ignores_now (quote : string -> string) (timeToUnixMillis : Time -> Z)
    (now1 now2 : Time) (t : StatsTask) (w : Orchestrator) :
  Next quote timeToUnixMillis now1 t w = Next quote timeToUnixMillis now2 t w /\
  (fst (fst (Next quote timeToUnixMillis now1 t w)) = None
   \/ fst (fst (Next quote timeToUnixMillis now1 t w)) = at_ t) /\
  (forall a, fst (fst (Next quote timeToUnixMillis now1 t w)) = Some a ->
     at_ t = Some a /\
     exists o,
       op (snd (fst (Next quote timeToUnixMillis now1 t w))) = Some o /\
       UnixTimeStartMs o = timeToUnixMillis a /\
       Status o = STATUS_PENDING /\
       ops (OpLog (snd (Next quote timeToUnixMillis now1 t w)))
         = ops (OpLog w) ++ [o]).
Proof.
  split; [reflexivity|].
  destruct (Next_cases quote timeToUnixMillis now1 t w)
    as [[Ha E] | [(w' & E & _) | (a & o & w' & Ha & E & Hs & Hp & Hl)]];
    rewrite E; simpl.
  - split; [now left | discriminate].
  - split; [now left | discriminate].
  - split; [right; now rewrite Ha|].
    intros a' Ea. injection Ea as <-. split; [exact Ha|].
    exists o. now repeat split.
Qed.

(** ** Run *)

(** C8.  Without a retention policy on the plan, [Run] returns the
    configuration error at once: the task and the orchestrator are returned
    as they were, so no repository was resolved, no operation written and
    no hook dispatched. *)
Theorem Run_without_retention (quote : string -> string) (t : StatsTask)
    (w : Orchestrator) :
  Retention (plan t) = None ->
  Run quote t w = ((Some (errors_New "plan does not have a retention policy"), t), w).
Proof. intros H. unfold Run. rewrite H. reflexivity. Qed.

Lemma Run_without_retention_witness :
  snd (Run (fun s => s)
         {| op := Some statsOp;
            plan := {| Plan_Id := "p1"; Repo := "r1"; Retention := None |};
            linkSnapshot := ""; at_ := None |}
         (world [statsOp] None None [("r1"%string, repo1 (inr ioErr))]))
  = world [statsOp] None None [("r1"%string, repo1 (inr ioErr))].
Proof.
  rewrite (Run_without_retention (fun s => s)
             {| op := Some statsOp;
                plan := {| Plan_Id := "p1"; Repo := "r1"; Retention := None |};
                linkSnapshot := ""; at_ := None |}
             (world [statsOp] None None [("r1"%string, repo1 (inr ioErr))]) eq_refl).
  reflexivity.
Defined.

Lemma hookCalls_app (l1 l2 : list event) :
  hookCalls (l1 ++ l2) = hookCalls l1 ++ hookCalls l2.
Proof. unfold hookCalls. apply flat_map_app. Qed.

Ltac run_steps :=
  unfold Run, runWithOpAndContext, statsAction, GetRepo, Repo_Stats,
    OpLog_Update, ExecuteHooks, bind, emit, getOpLog, putOpLog, ret.

Lemma Run_resolution_fails (quote : string -> string) (t : StatsTask)
    (w : Orchestrator) (rp : RetentionPolicy) (o : Operation) :
  Retention (plan t) = Some rp ->
  op t = Some o ->
  lookupRepo (Repo (plan t)) (repos w) = None ->
  let e := fmt_Errorf_w ("get repo " ++ quote (Repo (plan t)) ++ ": ")
             (errors_New "repo not found") in
  let o' := withOutcome STATUS_ERROR (Error e) o in
  Run quote t w =
    ((Some e, setTaskOp (Some o') t),
     {| OpLog := {| ops := map (fun x => if Id x =? Id o then o' else x) (ops (OpLog w));
                    iterFault := iterFault (OpLog w);
                    addFault := addFault (OpLog w) |};
        repos := repos w;
        trace := trace w ++
                 [EvGetRepo (Repo (plan t)); EvOpLogUpdate o';
                  EvGetRepo (Repo (plan t))] ++
                 [EvExecuteHooks
                    {| hook_repo := None; hook_plan := plan t; hook_snapshotId := "";
                       hook_events := [Hook_CONDITION_ANY_ERROR];
                       hook_vars := {| Task := Name quote t; Error_ := Error e |} |}] |}).
Proof.
  intros Hr Ho Hl. run_steps. rewrite Hr, Ho.
  cbn [repos OpLog trace plan setTaskOp]. rewrite Hl.
  cbn -[Error append]. rewrite <- ?app_assoc, ?Hl. reflexivity.
Qed.

Lemma Run_stats_fails (quote : string -> string) (t : StatsTask)
    (w : Orchestrator) (rp : RetentionPolicy) (o : Operation)
    (r : RepoOrchestrator) (orig : error) :
  Retention (plan t) = Some rp ->
  op t = Some o ->
  lookupRepo (Repo (plan t)) (repos w) = Some r ->
  statsResult r = inr orig ->
  let e := fmt_Errorf_w "get stats: " orig in
  let o' := withOutcome STATUS_ERROR (Error e) o in
  Run quote t w =
    ((Some e, setTaskOp (Some o') t),
     {| OpLog := {| ops := map (fun x => if Id x =? Id o then o' else x) (ops (OpLog w));
                    iterFault := iterFault (OpLog w);
                    addFault := addFault (OpLog w) |};
        repos := repos w;
        trace := trace w ++
                 [EvGetRepo (Repo (plan t)); EvRepoStats (Repo_Id (repoConfig r));
                  EvOpLogUpdate o'; EvGetRepo (Repo (plan t))] ++
                 [EvExecuteHooks
                    {| hook_repo := Some (repoConfig r); hook_plan := plan t;
                       hook_snapshotId := "";
                       hook_events := [Hook_CONDITION_ANY_ERROR];
                       hook_vars := {| Task := Name quote t; Error_ := Error e |} |}] |}).
Proof.
  intros Hr Ho Hl Hs. run_steps. rewrite Hr, Ho.
  cbn [repos OpLog trace plan setTaskOp]. rewrite Hl.
  cbn [repos OpLog trace plan setTaskOp]. rewrite Hs.
  cbn -[Error append]. rewrite <- ?app_assoc, ?Hl. reflexivity.
Qed.

Lemma Run_without_operation (quote : string -> string) (t : StatsTask)
    (w : Orchestrator) (rp : RetentionPolicy) :
  Retention (plan t) = Some rp ->
  op t = None ->
  let e := errors_New "task has no operation" in
  Run quote t w =
    ((Some e, t),
     {| OpLog := OpLog w;
        repos := repos w;
        trace := trace w ++
                 [EvGetRepo (Repo (plan t))] ++
                 [EvExecuteHooks
                    {| hook_repo := Config (lookupRepo (Repo (plan t)) (repos w));
                       hook_plan := plan t; hook_snapshotId := "";
                       hook_events := [Hook_CONDITION_ANY_ERROR];
                       hook_vars := {| Task := Name quote t; Error_ := Error e |} |}] |}).
Proof.
  intros Hr Ho. run_steps. rewrite Hr, Ho.
  cbn -[Error append]. rewrite <- ?app_assoc.
  destruct (lookupRepo (Repo (plan t)) (repos w)); reflexivity.
Qed.

(** C7.  When the plan has a retention policy, the task has its operation,
    and either the repository cannot be resolved or its statistics call
    fails, [Run] returns an error that wraps the failure; the task's
    operation is written back with status ERROR and the error text as its
    message; and the effects of the call end with the one hook dispatch it
    makes, for the single condition ANY_ERROR, with the task's name and the
    error text as variables. *)
Theorem Run_failure_dispatches_hook (quote : string -> string) (t : StatsTask)
    (w : Orchestrator) (rp : RetentionPolicy) (o : Operation) (orig : error) :
  Retention (plan t) = Some rp ->
  op t = Some o ->
  (lookupRepo (Repo (plan t)) (repos w) = None /\ orig = errors_New "repo not found")
  \/ (exists r, lookupRepo (Repo (plan t)) (repos w) = Some r
                /\ statsResult r = inr orig) ->
  exists e o' w' evs,
    Run quote t w = ((Some e, setTaskOp (Some o') t), w') /\
    wraps orig e /\
    Status o' = STATUS_ERROR /\
    DisplayMessage o' = Error e /\
    trace w' = trace w ++ evs ++
                 [EvExecuteHooks
                    {| hook_repo := Config (lookupRepo (Repo (plan t)) (repos w));
                       hook_plan := plan t; hook_snapshotId := "";
                       hook_events := [Hook_CONDITION_ANY_ERROR];
                       hook_vars := {| Task := Name quote t; Error_ := Error e |} |}] /\
    hookCalls evs = [] /\
    In (EvOpLogUpdate o') evs.
Proof.
  intros Hr Ho [[Hl ->] | (r & Hl & Hs)].
  - do 4 eexists. rewrite (Run_resolution_fails quote t w rp o Hr Ho Hl), Hl.
    split; [reflexivity|]. split; [apply wraps_step, wraps_here|].
    split; [reflexivity|]. split; [reflexivity|].
    split; [reflexivity|]. split; [reflexivity|]. simpl. auto.
  - do 4 eexists. rewrite (Run_stats_fails quote t w rp o r orig Hr Ho Hl Hs), Hl.
    split; [reflexivity|]. split; [apply wraps_step, wraps_here|].
    split; [reflexivity|]. split; [reflexivity|].
    split; [reflexivity|]. split; [reflexivity|]. simpl. auto.
Qed.

Lemma Run_failure_dispatches_hook_witness :
  exists e, fst (fst (Run (fun s => s) (setTaskOp (Some statsOp) (task1 None))
                        (world [statsOp] None None [("r1"%string, repo1 (inr ioErr))])))
            = Some e /\ wraps ioErr e.
Proof.
  destruct (Run_failure_dispatches_hook (fun s => s)
              (setTaskOp (Some statsOp) (task1 None))
              (world [statsOp] None None [("r1"%string, repo1 (inr ioErr))])
              {| KeepLastN := 0 |} statsOp ioErr eq_refl eq_refl
              (or_intror (ex_intro _ (repo1 (inr ioErr)) (conj eq_refl eq_refl))))
    as (e & o' & w' & evs & E & W & _).
  exists e. rewrite E. split; [reflexivity | exact W].
Defined.

Ltac runWith_steps :=
  unfold RunWith, runWithOpAndContext, statsAction, GetRepo, Repo_Stats,
    OpLog_Update, ExecuteHooks, bind, emit, getOpLog, putOpLog, ret.

(** [Run] is [RunWith] at the [Config] that answers the empty
    configuration on an unresolved handle. *)
Lemma RunWith_Config (quote : string -> string) (t : StatsTask) (w : Orchestrator) :
  RunWith quote (fun r => Returned (Config r)) t w
  = (Returned (fst (Run quote t w)), snd (Run quote t w)).
Proof.
  unfold RunWith, Run. destruct (Retention (plan t)); [|reflexivity].
  unfold bind.
  destruct (runWithOpAndContext (statsAction quote t) t w) as [[[e|] t'] w'];
    [|reflexivity].
  destruct (GetRepo (Repo (plan t')) w') as [repo w2].
  destruct (ExecuteHooks _ _ _ _ _ w2) as [u w3]. reflexivity.
Qed.

(** The failure path up to the call of [Config]: what [Run] has done and
    holds when it calls [Config] on the unresolved handle. *)
Lemma RunWith_unresolved (quote : string -> string)
    (ConfigOn : option RepoOrchestrator -> outcome (option RepoConfig))
    (t : StatsTask) (w : Orchestrator) (rp : RetentionPolicy) :
  Retention (plan t) = Some rp ->
  lookupRepo (Repo (plan t)) (repos w) = None ->
  exists e t' w1,
    hookCalls (trace w1) = hookCalls (trace w) /\
    plan t' = plan t /\
    (forall o, op t = Some o ->
       e = fmt_Errorf_w ("get repo " ++ quote (Repo (plan t)) ++ ": ")
             (errors_New "repo not found")) /\
    RunWith quote ConfigOn t w =
      match ConfigOn None with
      | Panicked => (Panicked, w1)
      | Returned cfg =>
          (Returned (Some e, t'),
           logged (EvExecuteHooks
                     {| hook_repo := cfg; hook_plan := plan t; hook_snapshotId := "";
                        hook_events := [Hook_CONDITION_ANY_ERROR];
                        hook_vars := {| Task := Name quote t; Error_ := Error e |} |})
                  w1)
      end.
Proof.
  intros Hr Hl. destruct (op t) as [o|] eqn:Ho.
  - do 3 eexists. split; [|split; [|split]].
    4:{ runWith_steps. rewrite Hr, Ho.
        cbn [repos OpLog trace plan setTaskOp]. rewrite Hl.
        cbn -[Error append]. rewrite ?Hl.
        destruct (ConfigOn None) as [cfg|]; cycle 1;
          [reflexivity | unfold logged; cbn [OpLog repos trace]; reflexivity]. }
    + cbn [trace]. unfold hookCalls. rewrite !flat_map_app. simpl.
      now rewrite !app_nil_r.
    + reflexivity.
    + reflexivity.
  - do 3 eexists. split; [|split; [|split]].
    4:{ runWith_steps. rewrite Hr, Ho.
        cbn -[Error append]. rewrite ?Hl.
        destruct (ConfigOn None) as [cfg|]; cycle 1;
          [reflexivity | unfold logged; cbn [OpLog repos trace]; reflexivity]. }
    + cbn [trace]. unfold hookCalls. rewrite !flat_map_app. simpl.
      now rewrite !app_nil_r.
    + reflexivity.
    + discriminate.
Qed.



(** Nothing in [Run] shields the call: were [Config] to panic on the
    unresolved handle, [Run] would panic with it, no hook dispatched and no
    error returned. *)
Lemma hook_dispatch_panics_with_Config (quote : string -> string)
    (ConfigOn : option RepoOrchestrator -> outcome (option RepoConfig))
    (t : StatsTask) (w : Orchestrator) (rp : RetentionPolicy) :
  Retention (plan t) = Some rp ->
  lookupRepo (Repo (plan t)) (repos w) = None ->
  ConfigOn None = Panicked ->
  fst (RunWith quote ConfigOn t w) = Panicked /\
  hookCalls (trace (snd (RunWith quote ConfigOn t w))) = hookCalls (trace w).
Proof.
  intros Hr Hl Hc.
  destruct (RunWith_unresolved quote ConfigOn t w rp Hr Hl)
    as (e & t' & w1 & Hh & _ & _ & E).
  rewrite Hc in E. rewrite E. now split.
Qed.

(** * Further properties of the decision *)

(** X1.  [shouldRun] only reads: it leaves the log and the repositories as
    they were, records one scan of the plan's repository, and answers the
    same when it is asked again on the orchestrator it left behind, whether
    the scan failed or not. *)
Theorem shouldRun_reads_only (t : StatsTask) (w : Orchestrator) :
  OpLog (snd (shouldRun t w)) = OpLog w /\
  repos (snd (shouldRun t w)) = repos w /\
  trace (snd (shouldRun t w)) = trace w ++ [EvForEachByRepo (Repo (plan t))] /\
  fst (shouldRun t (snd (shouldRun t w))) = fst (shouldRun t w).
Proof.
  rewrite (shouldRun_eval t (snd (shouldRun t w))).
  rewrite !shouldRun_eval. cbn [fst snd logged OpLog repos trace].
  repeat split.
Qed.

Lemma takeWhile_app_stop {A : Type} (p : A -> bool) (l r : list A) (x : A) :
  p x = false -> takeWhile p (l ++ x :: r) = takeWhile p l.
Proof.
  intros Hx. induction l as [|y l IH]; simpl.
  - now rewrite Hx.
  - destruct (p y); [now rewrite IH | reflexivity].
Qed.

Lemma scan_cut_at_baseline (pre r : list Operation) (s : Operation) :
  settled s = true -> isStats s = true ->
  scan (pre ++ s :: r) = scan (pre ++ [s]).
Proof.
  intros Hs Ht. rewrite !scan_spec.
  assert (E : forall r', sinceBaseline (pre ++ s :: r') = sinceBaseline pre
                         /\ baselineFound (pre ++ s :: r') = true).
  { intros r'. unfold sinceBaseline, baselineFound.
    rewrite filter_app. simpl. rewrite Hs. split.
    - apply takeWhile_app_stop. now rewrite Ht.
    - rewrite existsb_app. simpl. rewrite Ht. now rewrite orb_true_r. }
  destruct (E r) as [E1 E2]. destruct (E []) as [E3 E4].
  unfold accumulated, accumulatedFrom, scanned, bytesAdded.
  now rewrite E1, E2, E3, E4.
Qed.

(** X2.  Nothing older than the most recent settled Stats operation of the
    window reaches the decision: two readable logs whose windows agree up
    to and including that operation get the same answer, whatever lies
    further back. *)
Theorem older_than_baseline_ignored (t : StatsTask) (w1 w2 : Orchestrator)
    (pre r1 r2 : list Operation) (s : Operation) :
  iterFault (OpLog w1) = None ->
  iterFault (OpLog w2) = None ->
  window (Repo (plan t)) (OpLog w1) = pre ++ s :: r1 ->
  window (Repo (plan t)) (OpLog w2) = pre ++ s :: r2 ->
  settled s = true ->
  isStats s = true ->
  fst (shouldRun t w1) = fst (shouldRun t w2).
Proof.
  intros F1 F2 W1 W2 Hs Ht.
  rewrite !shouldRun_eval, F1, F2, W1, W2. cbn [fst].
  now rewrite (scan_cut_at_baseline pre r1 s Hs Ht),
              (scan_cut_at_baseline pre r2 s Hs Ht).
Qed.

Lemma older_than_baseline_ignored_witness :
  fst (shouldRun (task1 None) (healthy [statsOp]))
  = fst (shouldRun (task1 None) (healthy log_scenarioB)).
Proof.
  apply (older_than_baseline_ignored (task1 None) (healthy [statsOp])
           (healthy log_scenarioB) [] []
           (repeat (backupOp STATUS_SUCCESS (3 * GiB)) 5) statsOp);
    reflexivity.
Defined.

(** X3.  The byte test is off by one byte, twice over: the accumulator
    starts at -1 and the comparison is strict.  On a readable log with
    fewer than 100 settled entries scanned, whose summaries newer than the
    baseline add [A] bytes in all, 1 <= A < 2^63, [shouldRun] answers true
    exactly when A is at least 10 * 2^30 + 2. *)
Theorem bytes_trigger_from_threshold_plus_two (t : StatsTask) (w : Orchestrator) :
  iterFault (OpLog w) = None ->
  scanned (window (Repo (plan t)) (OpLog w)) < 100 ->
  1 <= bytesAdded (window (Repo (plan t)) (OpLog w)) < 2 ^ 63 ->
  (fst (shouldRun t w) = (true, None) <->
   10 * 2 ^ 30 + 2 <= bytesAdded (window (Repo (plan t)) (OpLog w))).
Proof.
  intros Hf Hn Hb.
  destruct (shouldRun_true_iff t w Hf) as [_ D]. rewrite D. clear D.
  set (W := window (Repo (plan t)) (OpLog w)) in *.
  assert (E : accumulated W = bytesAdded W - 1).
  { unfold accumulated, accumulatedFrom. cbv zeta.
    rewrite wrap64_id by (unfold in_int64; lia).
    replace (-1 + bytesAdded W =? -1) with false
      by (symmetry; apply Z.eqb_neq; lia).
    rewrite andb_false_r. lia. }
  rewrite E. lia.
Qed.

Lemma bytes_trigger_from_threshold_plus_two_witness :
  fst (shouldRun (task1 None) (healthy log_backups_newer)) = (true, None) <->
  10 * 2 ^ 30 + 2 <= bytesAdded (window "r1" (OpLog (healthy log_backups_newer))).
Proof.
  apply (bytes_trigger_from_threshold_plus_two (task1 None) (healthy log_backups_newer)).
  - reflexivity.
  - reflexivity.
  - split; [apply Z.leb_le | apply Z.ltb_lt]; reflexivity.
Defined.

(** X4.  A repository whose window holds no settled Stats operation and
    whose settled entries added no bytes (no terminal summary, or
    summaries of zero bytes) is due, however few entries there are: the
    accumulator still holds the sentinel. *)
Theorem due_without_baseline_and_bytes (t : StatsTask) (w : Orchestrator) :
  iterFault (OpLog w) = None ->
  baselineFound (window (Repo (plan t)) (OpLog w)) = false ->
  bytesAdded (window (Repo (plan t)) (OpLog w)) = 0 ->
  fst (shouldRun t w) = (true, None).
Proof.
  intros Hf Hb Ha. apply (shouldRun_true_iff t w Hf). right. left.
  unfold accumulated, accumulatedFrom. now rewrite Hb, Ha.
Qed.

Lemma due_without_baseline_and_bytes_witness :
  fst (shouldRun (task1 None)
         (healthy [mkOp STATUS_SUCCESS (Operation_Other "prune");
                   mkOp STATUS_ERROR
                        (Operation_OperationBackup {| LastStatus := None |});
                   mkOp STATUS_PENDING (Operation_OperationStats None)]))
  = (true, None).
Proof.
  apply (due_without_baseline_and_bytes (task1 None)); reflexivity.
Defined.

Lemma sinceBaseline_all (W : list Operation) :
  forallb (fun o => settled o && negb (isStats o)) W = true ->
  sinceBaseline W = W.
Proof.
  unfold sinceBaseline. induction W as [|o W IH]; [reflexivity|].
  simpl. intros H. apply andb_true_iff in H as [Ho HW].
  apply andb_true_iff in Ho as [H1 H2].
  rewrite H1. simpl. rewrite H2. now rewrite IH.
Qed.

(** X5.  When the repository has at least 100 operations and the last 100
    are all settled and none of them is a Stats operation, [shouldRun]
    answers true, whatever bytes they added. *)
Theorem due_after_100_settled_without_stats (t : StatsTask) (w : Orchestrator) :
  iterFault (OpLog w) = None ->
  (100 <= List.length (byRepo (Repo (plan t)) (ops (OpLog w))))%nat ->
  forallb (fun o => settled o && negb (isStats o))
          (window (Repo (plan t)) (OpLog w)) = true ->
  fst (shouldRun t w) = (true, None).
Proof.
  intros Hf Hl Ha. apply (shouldRun_true_iff t w Hf). left.
  unfold scanned. rewrite (sinceBaseline_all _ Ha), window_length.
  destruct (baselineFound _); lia.
Qed.

Lemma due_after_100_settled_without_stats_witness :
  fst (shouldRun (task1 None) (healthy log_scenarioA)) = (true, None).
Proof.
  apply (due_after_100_settled_without_stats (task1 None) (healthy log_scenarioA)).
  - reflexivity.
  - apply Nat.leb_le. reflexivity.
  - reflexivity.
Defined.

(** * Further properties of Next *)

Lemma shouldRun_true_decide (t : StatsTask) (w : Orchestrator) :
  iterFault (OpLog w) = None ->
  fst (shouldRun t w) = (true, None) ->
  decide (scan (window (Repo (plan t)) (OpLog w))) = true.
Proof.
  intros Hf. rewrite shouldRun_eval, Hf. cbn [fst]. congruence.
Qed.

(** X6.  When the decision is positive and the log refuses the new
    operation, the poll logs the error and answers not-due: the log is as
    it was, the task has no new operation, and the slot is empty all the
    same, so the run is lost until the task is scheduled again. *)
Theorem poll_abandons_on_persistence_error (quote : string -> string)
    (timeToUnixMillis : Time -> Z) (now a : Time) (t : StatsTask)
    (w : Orchestrator) (e : error) :
  at_ t = Some a ->
  iterFault (OpLog w) = None ->
  fst (shouldRun t w) = (true, None) ->
  addFault (OpLog w) = Some e ->
  exists t' w',
    Next quote timeToUnixMillis now t w = ((None, t'), w') /\
    OpLog w' = OpLog w /\
    op t' = op t /\
    at_ t' = None /\
    trace w' = trace w ++
                 [EvForEachByRepo (Repo (plan t));
                  EvErrorf (Name quote t) "failed to add operation to oplog"
                    (fmt_Errorf_w "task failed to add operation to oplog: " e)].
Proof.
  intros Ha Hf Hd He. apply (shouldRun_true_decide t w Hf) in Hd.
  do 2 eexists.
  rewrite (Next_add_error quote timeToUnixMillis now a t w e Ha Hf Hd He).
  split; [reflexivity|]. unfold logged. cbn [OpLog trace op at_ setAt].
  rewrite <- app_assoc. now repeat split.
Qed.

Lemma poll_abandons_on_persistence_error_witness :
  fst (fst (Next (fun s => s) (fun ns => ns / 1000000) 7 (task1 (Some 5000000))
              (world [] None (Some ioErr) []))) = None.
Proof.
  destruct (poll_abandons_on_persistence_error (fun s => s)
              (fun ns => ns / 1000000) 7 5000000 (task1 (Some 5000000))
              (world [] None (Some ioErr) []) ioErr
              eq_refl eq_refl eq_refl eq_refl) as (t' & w' & E & _).
  rewrite E. reflexivity.
Defined.

(** X7.  The log changes exactly when the poll answers due.  A poll that
    answers not-due leaves the log, the repositories and the task's
    operation as they were; a poll that answers due has appended exactly one
    operation, which the task now holds, and has changed no earlier
    record. *)
Theorem log_grows_iff_due (quote : string -> string) (timeToUnixMillis : Time -> Z)
    (now : Time) (t : StatsTask) (w : Orchestrator) :
  (fst (fst (Next quote timeToUnixMillis now t w)) = None ->
     OpLog (snd (Next quote timeToUnixMillis now t w)) = OpLog w /\
     repos (snd (Next quote timeToUnixMillis now t w)) = repos w /\
     op (snd (fst (Next quote timeToUnixMillis now t w))) = op t) /\
  (fst (fst (Next quote timeToUnixMillis now t w)) <> None ->
     exists o,
       ops (OpLog (snd (Next quote timeToUnixMillis now t w))) = ops (OpLog w) ++ [o] /\
       op (snd (fst (Next quote timeToUnixMillis now t w))) = Some o /\
       PlanId o = Plan_Id (plan t) /\
       RepoId o = Repo (plan t) /\
       SnapshotId o = linkSnapshot t /\
       Op o = Operation_OperationStats None).
Proof.
  destruct (at_ t) as [a|] eqn:Ha.
  2:{ rewrite (Next_empty quote timeToUnixMillis now t w Ha). cbn [fst snd].
      split; [now repeat split | congruence]. }
  destruct (iterFault (OpLog w)) as [e|] eqn:Hf.
  { rewrite (Next_iter_error quote timeToUnixMillis now a t w e Ha Hf).
    cbn [fst snd]. split; [now repeat split | congruence]. }
  destruct (decide (scan (window (Repo (plan t)) (OpLog w)))) eqn:Hd.
  2:{ rewrite (Next_skip quote timeToUnixMillis now a t w Ha Hf Hd).
      cbn [fst snd]. split; [now repeat split | congruence]. }
  destruct (addFault (OpLog w)) as [e|] eqn:He.
  { rewrite (Next_add_error quote timeToUnixMillis now a t w e Ha Hf Hd He).
    cbn [fst snd]. split; [now repeat split | congruence]. }
  rewrite (Next_due quote timeToUnixMillis now a t w Ha Hf Hd He).
  cbn [fst snd]. split; [discriminate|]. intros _.
  eexists. cbn [OpLog ops op setTaskOp]. now repeat split.
Qed.

Lemma byRepo_snoc (repo : string) (l : list Operation) (o : Operation) :
  RepoId o = repo -> byRepo repo (l ++ [o]) = byRepo repo l ++ [o].
Proof.
  intros H. unfold byRepo. rewrite filter_app. simpl.
  now rewrite H, String.eqb_refl.
Qed.

Lemma CollectLastN_snoc {A : Type} (n : nat) (l : list A) (x : A) :
  CollectLastN (S n) (l ++ [x]) = CollectLastN n l ++ [x].
Proof.
  unfold CollectLastN. rewrite length_app. simpl.
  replace (List.length l + 1 - S n)%nat with (List.length l - n)%nat by lia.
  rewrite skipn_app.
  replace (List.length l - n - List.length l)%nat with 0%nat by lia.
  reflexivity.
Qed.

Lemma CollectLastN_all {A : Type} (n : nat) (l : list A) :
  (List.length l <= n)%nat -> CollectLastN n l = l.
Proof.
  intros H. unfold CollectLastN.
  replace (List.length l - n)%nat with 0%nat by lia. reflexivity.
Qed.

(** The window after one more operation of the repository was stored. *)
Lemma window_snoc (repo : string) (l : OpLogT) (l' : list Operation) (o : Operation) :
  byRepo repo (ops l) = l' ++ [o] ->
  window repo l = o :: rev (CollectLastN 99 l').
Proof.
  intros H. unfold window, Reversed. rewrite H.
  change (Z.to_nat statOperationsThreshold) with 100%nat.
  rewrite CollectLastN_snoc, rev_app_distr. reflexivity.
Qed.

Lemma scan_skip_head (o : Operation) (W : list Operation) :
  settled o = false -> scan (o :: W) = scan W.
Proof.
  intros H. rewrite !scan_spec.
  destruct (scan_cons_unsettled o W H) as [E1 E2].
  unfold accumulated, accumulatedFrom, scanned, bytesAdded.
  now rewrite E1, E2.
Qed.

(** X8.  The PENDING Stats operation a due poll appends is no baseline.
    While the repository has fewer than 100 operations, the decision stays
    true after a due poll: a second task polled before the first one runs
    is due as well. *)
Theorem pending_stats_is_no_baseline (quote : string -> string)
    (timeToUnixMillis : Time -> Z) (now a : Time) (t : StatsTask) (w : Orchestrator) :
  at_ t = Some a ->
  iterFault (OpLog w) = None ->
  addFault (OpLog w) = None ->
  fst (shouldRun t w) = (true, None) ->
  (List.length (byRepo (Repo (plan t)) (ops (OpLog w))) < 100)%nat ->
  fst (fst (Next quote timeToUnixMillis now t w)) = Some a /\
  fst (shouldRun t (snd (Next quote timeToUnixMillis now t w))) = (true, None).
Proof.
  intros Ha Hf He Hd Hl.
  pose proof (shouldRun_true_decide t w Hf Hd) as Hd'.
  rewrite (Next_due quote timeToUnixMillis now a t w Ha Hf Hd' He).
  cbn [fst snd]. split; [reflexivity|].
  rewrite shouldRun_eval. cbn [OpLog iterFault fst].
  set (o := withId _ _).
  rewrite (window_snoc _ _ (byRepo (Repo (plan t)) (ops (OpLog w))) o)
    by (cbn [ops]; now apply byRepo_snoc).
  rewrite scan_skip_head by reflexivity.
  rewrite CollectLastN_all by lia.
  assert (E : window (Repo (plan t)) (OpLog w)
              = rev (byRepo (Repo (plan t)) (ops (OpLog w)))).
  { unfold window, Reversed. now rewrite CollectLastN_all by (simpl; lia). }
  rewrite <- E, Hd'. reflexivity.
Qed.

Lemma pending_stats_is_no_baseline_witness :
  fst (shouldRun (task1 (Some 5000000))
         (snd (Next (fun s => s) (fun ns => ns / 1000000) 7 (task1 (Some 5000000))
                 (healthy [backupOp STATUS_SUCCESS 0]))))
  = (true, None).
Proof.
  apply (pending_stats_is_no_baseline (fun s => s) (fun ns => ns / 1000000)
           7 5000000 (task1 (Some 5000000)) (healthy [backupOp STATUS_SUCCESS 0]));
    try reflexivity.
  apply Nat.ltb_lt. reflexivity.
Defined.

Lemma polls_idle (quote : string -> string) (timeToUnixMillis : Time -> Z)
    (nows : list Time) (t : StatsTask) (w : Orchestrator) :
  at_ t = None ->
  polls quote timeToUnixMillis nows t w
  = ((repeat None (List.length nows), t), w).
Proof.
  intros Ha. induction nows as [|now rest IH]; [reflexivity|].
  cbn [polls]. unfold bind at 1.
  rewrite (Next_empty quote timeToUnixMillis now t w Ha).
  unfold bind. rewrite IH. reflexivity.
Qed.

(** X9.  A one-off task fires at most once.  However often the task built
    by [NewOneoffStatsTask] is polled, every answer after the first is
    not-due, the first is nil or the instant it was built with, and the log
    ends as it was or one operation longer. *)
Theorem oneoff_fires_at_most_once (quote : string -> string)
    (timeToUnixMillis : Time -> Z) (p : Plan) (link : string) (a now : Time)
    (rest : list Time) (w : Orchestrator) :
  exists r t' w',
    polls quote timeToUnixMillis (now :: rest) (NewOneoffStatsTask p link a) w
    = ((r :: repeat None (List.length rest), t'), w') /\
    (r = None \/ r = Some a) /\
    at_ t' = None /\
    (ops (OpLog w') = ops (OpLog w)
     \/ exists o, ops (OpLog w') = ops (OpLog w) ++ [o]).
Proof.
  cbn [polls]. unfold bind at 1.
  destruct (Next_cases quote timeToUnixMillis now (NewOneoffStatsTask p link a) w)
    as [[Ha _] | [(w' & E & El & _) | (a' & o & w' & Ha & E & _ & _ & El)]].
  - discriminate Ha.
  - rewrite E. unfold bind. rewrite polls_idle by reflexivity.
    do 3 eexists. split; [reflexivity|].
    split; [now left|]. split; [reflexivity|]. left. now rewrite El.
  - rewrite E. unfold bind. rewrite polls_idle by reflexivity.
    do 3 eexists. split; [reflexivity|].
    split; [right; now rewrite <- Ha|]. split; [reflexivity|].
    right. now exists o.
Qed.

(** * Further properties of Run *)

Lemma Run_stats_succeed (quote : string -> string) (t : StatsTask)
    (w : Orchestrator) (rp : RetentionPolicy) (o : Operation)
    (r : RepoOrchestrator) (st : RepoStats) :
  Retention (plan t) = Some rp ->
  op t = Some o ->
  lookupRepo (Repo (plan t)) (repos w) = Some r ->
  statsResult r = inl st ->
  let o' := withOutcome STATUS_SUCCESS (DisplayMessage o)
              (withOp (Operation_OperationStats (Some {| Stats := Some st |})) o) in
  Run quote t w =
    ((None, setTaskOp (Some o') t),
     {| OpLog := {| ops := written o' (ops (OpLog w));
                    iterFault := iterFault (OpLog w);
                    addFault := addFault (OpLog w) |};
        repos := repos w;
        trace := trace w ++
                 [EvGetRepo (Repo (plan t)); EvRepoStats (Repo_Id (repoConfig r));
                  EvOpLogUpdate o'] |}).
Proof.
  intros Hr Ho Hl Hs. run_steps. rewrite Hr, Ho.
  cbn [repos OpLog trace plan setTaskOp]. rewrite Hl.
  cbn [repos OpLog trace plan setTaskOp]. rewrite Hs.
  cbn -[Error append]. rewrite <- ?app_assoc. reflexivity.
Qed.

(** X10.  When the plan has a retention policy, the task has its operation,
    the repository resolves and its statistics call succeeds, [Run] returns
    nil and dispatches no hook; the operation, with the statistics as its
    payload and status SUCCESS, is written back to the log under the
    identifier it had and is the operation the task holds. *)
Theorem Run_success_stores_stats (quote : string -> string) (t : StatsTask)
    (w : Orchestrator) (rp : RetentionPolicy) (o : Operation)
    (r : RepoOrchestrator) (st : RepoStats) :
  Retention (plan t) = Some rp ->
  op t = Some o ->
  lookupRepo (Repo (plan t)) (repos w) = Some r ->
  statsResult r = inl st ->
  exists o' w',
    Run quote t w = ((None, setTaskOp (Some o') t), w') /\
    Op o' = Operation_OperationStats (Some {| Stats := Some st |}) /\
    Status o' = STATUS_SUCCESS /\
    Id o' = Id o /\
    ops (OpLog w') = written o' (ops (OpLog w)) /\
    hookCalls (trace w') = hookCalls (trace w).
Proof.
  intros Hr Ho Hl Hs. do 2 eexists.
  rewrite (Run_stats_succeed quote t w rp o r st Hr Ho Hl Hs).
  split; [reflexivity|]. cbn [OpLog ops trace].
  rewrite hookCalls_app. cbn. rewrite app_nil_r. now repeat split.
Qed.

Lemma Run_success_stores_stats_witness :
  fst (fst (Run (fun s => s) (setTaskOp (Some statsOp) (task1 None))
              (world [statsOp] None None
                 [("r1"%string, repo1 (inl {| TotalSize := 42; SnapshotCount := 3 |}))])))
  = None.
Proof.
  destruct (Run_success_stores_stats (fun s => s)
              (setTaskOp (Some statsOp) (task1 None))
              (world [statsOp] None None
                 [("r1"%string, repo1 (inl {| TotalSize := 42; SnapshotCount := 3 |}))])
              {| KeepLastN := 0 |} statsOp
              (repo1 (inl {| TotalSize := 42; SnapshotCount := 3 |}))
              {| TotalSize := 42; SnapshotCount := 3 |}
              eq_refl eq_refl eq_refl eq_refl) as (o' & w' & E & _).
  rewrite E. reflexivity.
Defined.

(** Whatever the outcome of the action, [Run] writes the task's operation
    back settled, under its identifier and repository, and keeps its kind. *)
Lemma Run_writes_back (quote : string -> string) (t : StatsTask)
    (w : Orchestrator) (rp : RetentionPolicy) (o : Operation) :
  Retention (plan t) = Some rp ->
  op t = Some o ->
  exists e o' w',
    Run quote t w = ((e, setTaskOp (Some o') t), w') /\
    ops (OpLog w') = written o' (ops (OpLog w)) /\
    iterFault (OpLog w') = iterFault (OpLog w) /\
    settled o' = true /\
    Id o' = Id o /\
    RepoId o' = RepoId o /\
    (isStats o = true -> isStats o' = true).
Proof.
  intros Hr Ho.
  destruct (lookupRepo (Repo (plan t)) (repos w)) as [r|] eqn:Hl.
  - destruct (statsResult r) as [st|err] eqn:Hs.
    + do 3 eexists.
      rewrite (Run_stats_succeed quote t w rp o r st Hr Ho Hl Hs).
      split; [reflexivity|]. now repeat split.
    + do 3 eexists.
      rewrite (Run_stats_fails quote t w rp o r err Hr Ho Hl Hs).
      split; [reflexivity|]. now repeat split.
  - do 3 eexists.
    rewrite (Run_resolution_fails quote t w rp o Hr Ho Hl).
    split; [reflexivity|]. now repeat split.
Qed.

Lemma scan_head_baseline (s : Operation) (r : list Operation) :
  settled s = true -> isStats s = true ->
  scan (s :: r) = {| bytesSinceLastStat := 0; howFarBack := 1 |}.
Proof.
  intros Hs Ht. rewrite scan_spec.
  destruct (scan_cons_stats s r Hs Ht) as [E1 E2].
  unfold accumulated, accumulatedFrom, scanned, bytesAdded.
  now rewrite E1, E2.
Qed.

Lemma written_snoc (o o' : Operation) (l : list Operation) :
  Id o' = Id o -> written o' (l ++ [o]) = written o' l ++ [o'].
Proof.
  intros H. unfold written. rewrite map_app. simpl.
  now rewrite H, Z.eqb_refl.
Qed.

(** X11.  A run, successful or not, sets the baseline.  After a due poll
    on a readable log and the run of the operation it appended, under a plan
    with a retention policy, [shouldRun] answers false: the operation was
    written back settled, as SUCCESS or as ERROR, it is a Stats operation,
    and it is the most recent entry of the repository. *)
Theorem decision_false_after_run (quote : string -> string)
    (timeToUnixMillis : Time -> Z) (now a : Time) (t : StatsTask)
    (w : Orchestrator) (rp : RetentionPolicy) :
  at_ t = Some a ->
  Retention (plan t) = Some rp ->
  iterFault (OpLog w) = None ->
  addFault (OpLog w) = None ->
  fst (shouldRun t w) = (true, None) ->
  fst (fst (Next quote timeToUnixMillis now t w)) = Some a /\
  fst (shouldRun
         (snd (fst (Run quote (snd (fst (Next quote timeToUnixMillis now t w)))
                      (snd (Next quote timeToUnixMillis now t w)))))
         (snd (Run quote (snd (fst (Next quote timeToUnixMillis now t w)))
                 (snd (Next quote timeToUnixMillis now t w)))))
  = (false, None).
Proof.
  intros Ha Hr Hf He Hd.
  pose proof (shouldRun_true_decide t w Hf Hd) as Hd'.
  rewrite (Next_due quote timeToUnixMillis now a t w Ha Hf Hd' He).
  cbn [fst snd]. split; [reflexivity|].
  set (o := withId _ _).
  set (t1 := setTaskOp (Some o) (setAt None t)).
  set (w1 := {| OpLog := _; repos := repos w; trace := _ |}).
  destruct (Run_writes_back quote t1 w1 rp o Hr eq_refl)
    as (e & o' & w2 & E & Eo & Ef & Hs & Hi & Hrepo & Hk).
  rewrite E. cbn [fst snd].
  rewrite shouldRun_eval, Ef. cbn [w1 OpLog iterFault fst].
  rewrite (window_snoc _ _ (byRepo (Repo (plan t)) (written o' (ops (OpLog w)))) o').
  - rewrite (scan_head_baseline o' _ Hs (Hk eq_refl)). reflexivity.
  - rewrite Eo. cbn [w1 OpLog ops]. rewrite (written_snoc o o' _ Hi).
    apply byRepo_snoc. now rewrite Hrepo.
Qed.

Lemma decision_false_after_run_witness :
  fst (shouldRun
         (snd (fst (Run (fun s => s)
                      (snd (fst (Next (fun s => s) (fun ns => ns / 1000000) 7
                                   (task1 (Some 5000000)) (healthy []))))
                      (snd (Next (fun s => s) (fun ns => ns / 1000000) 7
                              (task1 (Some 5000000)) (healthy []))))))
         (snd (Run (fun s => s)
                 (snd (fst (Next (fun s => s) (fun ns => ns / 1000000) 7
                              (task1 (Some 5000000)) (healthy []))))
                 (snd (Next (fun s => s) (fun ns => ns / 1000000) 7
                         (task1 (Some 5000000)) (healthy []))))))
  = (false, None).
Proof.
  apply (decision_false_after_run (fun s => s) (fun ns => ns / 1000000) 7 5000000
           (task1 (Some 5000000)) (healthy []) {| KeepLastN := 0 |});
    reflexivity.
Defined.

(** X12.  Neither [Next] nor [Run] touches the task's plan or snapshot
    link, so the task keeps its name; and [Run] never touches the scheduled
    instant. *)
Theorem task_identity_kept (quote : string -> string) (timeToUnixMillis : Time -> Z)
    (now : Time) (t : StatsTask) (w : Orchestrator) :
  (plan (snd (fst (Next quote timeToUnixMillis now t w))) = plan t /\
   linkSnapshot (snd (fst (Next quote timeToUnixMillis now t w))) = linkSnapshot t /\
   Name quote (snd (fst (Next quote timeToUnixMillis now t w))) = Name quote t) /\
  (plan (snd (fst (Run quote t w))) = plan t /\
   linkSnapshot (snd (fst (Run quote t w))) = linkSnapshot t /\
   Name quote (snd (fst (Run quote t w))) = Name quote t /\
   at_ (snd (fst (Run quote t w))) = at_ t).
Proof.
  split.
  - destruct (Next_cases quote timeToUnixMillis now t w)
      as [[_ E] | [(w' & E & _) | (a & o & w' & _ & E & _)]];
      rewrite E; now repeat split.
  - destruct (Retention (plan t)) as [rp|] eqn:Hr.
    + destruct (op t) as [o|] eqn:Ho.
      * destruct (Run_writes_back quote t w rp o Hr Ho) as (e & o' & w' & E & _).
        rewrite E. now repeat split.
      * rewrite (Run_without_operation quote t w rp Hr Ho). now repeat split.
    + unfold Run. rewrite Hr. now repeat split.
Qed.

(** X13.  The count of the scan stays small: after any scan [howFarBack]
    lies between 0 and 100 and never exceeds the number of operations the
    repository has, so the Go [int] cannot overflow; and the accumulator is
    always a value of [int64]. *)
Theorem scan_variables_bounded (repo : string) (l : OpLogT) :
  0 <= howFarBack (scan (window repo l)) <= 100 /\
  howFarBack (scan (window repo l)) <= Z.of_nat (List.length (byRepo repo (ops l))) /\
  in_int64 (bytesSinceLastStat (scan (window repo l))).
Proof.
  split; [apply scan_howFarBack_bound|]. split.
  - rewrite scan_spec. cbn [howFarBack].
    pose proof (scanned_le_settled (window repo l)) as H1.
    pose proof (filter_length_le settled (window repo l)) as H2.
    pose proof (window_length repo l) as H3. lia.
  - rewrite scan_spec. cbn [bytesSinceLastStat].
    unfold accumulated, accumulatedFrom. cbv zeta.
    destruct (baselineFound (window repo l) && _).
    + unfold in_int64. lia.
    + apply wrap64_in_range.
Qed.
